(** * The star-registry ledger of [src/blockchain.js]

    The class [Blockchain] keeps an array [chain] of blocks and a cached
    [height]; every method returns a Promise.  The development embeds

    - the JavaScript values the class manipulates (numbers with [NaN],
      [undefined], [null], strings, arrays, plain objects), with the
      operators the code applies to them ([===], truthiness, [parseInt],
      [split], [slice]);
    - the promise machinery the methods rely on: a table of promises, the
      reactions registered by [await] on a pending promise, and the FIFO
      queue of microtasks in which the code after an [await] resumes;
    - each method of the class, cut at its [await]s into the synchronous
      segments that the engine runs one microtask at a time.

    SHA256 (crypto-js), [JSON.stringify] on a block and
    [bitcoinMessage.verify] are external and enter as section variables. *)

From stdpp Require Import base list strings pretty.
From Stdlib Require Import ZArith Lia Ascii.

Set Warnings "-register-all".

Local Open Scope string_scope.
Local Open Scope Z_scope.
Local Open Scope list_scope.

(** ** JavaScript values *)

Module JS.

(** Numbers.  Every number the class computes with is an integer (heights,
    epoch seconds, parsed decimal fields), so a number is an integer or
    [NaN]; the rounding of doubles beyond 2^53 is outside the model. *)
Inductive number : Type :=
| Num (z : Z)
| NaN.

(** [a - b] *)
Definition sub (a b : number) : number :=
  match a, b with
  | Num x, Num y => Num (x - y)
  | _, _ => NaN
  end.

(** [a >= b]: any comparison with [NaN] is false. *)
Definition ge (a b : number) : bool :=
  match a, b with
  | Num x, Num y => (y <=? x)
  | _, _ => false
  end.

Inductive value : Type :=
| VUndefined
| VNull
| VBool (b : bool)
| VNum (n : number)
| VStr (s : string)
| VArr (items : list value)
| VObj (fields : list (string * value)).

(** ToBoolean *)
Definition truthy (v : value) : bool :=
  match v with
  | VUndefined | VNull => false
  | VBool b => b
  | VNum (Num z) => negb (z =? 0)
  | VNum NaN => false
  | VStr s => negb (String.eqb s "")
  | VArr _ | VObj _ => true
  end.

(** [a === b] on primitives.  Arrays and objects compare by identity; the
    ones met here are freshly decoded payloads and caller arguments, never
    the same object, so the comparison is false for them. *)
Definition strict_eq (a b : value) : bool :=
  match a, b with
  | VUndefined, VUndefined => true
  | VNull, VNull => true
  | VBool x, VBool y => Bool.eqb x y
  | VNum (Num x), VNum (Num y) => (x =? y)
  | VStr x, VStr y => String.eqb x y
  | _, _ => false
  end.

(** [o.k]: property read; [undefined] when the property is absent or the
    receiver is a primitive without it. *)
Fixpoint assoc (k : string) (fields : list (string * value)) : value :=
  match fields with
  | [] => VUndefined
  | (k', v) :: rest => if String.eqb k k' then v else assoc k rest
  end.

Definition get (k : string) (o : value) : value :=
  match o with
  | VObj fields => assoc k fields
  | _ => VUndefined
  end.

(** *** Strings *)

(** [s.split(sep)] for a one-character separator: never empty. *)
Fixpoint split (sep : ascii) (s : string) : list string :=
  match s with
  | EmptyString => [EmptyString]
  | String c rest =>
      if Ascii.eqb c sep then EmptyString :: split sep rest
      else match split sep rest with
           | field :: fields => String c field :: fields
           | [] => [String c EmptyString]
           end
  end.

(** [s.slice(0, -3)]: everything but the last three characters. *)
Definition slice_0_minus3 (s : string) : string :=
  String.substring 0 (String.length s - 3) s.

(** [n.toString()] for an integer number. *)
Definition Number_toString (z : Z) : string := pretty z.

(** ToString of a possibly missing array element. *)
Definition ToString (o : option string) : string :=
  match o with
  | Some s => s
  | None => "undefined"
  end.

(** White space skipped by [parseInt] (code units below 256). *)
Definition is_white_space (c : ascii) : bool :=
  let n := Ascii.nat_of_ascii c in
  ((9 <=? n) && (n <=? 13) || (n =? 32) || (n =? 160))%nat.

Fixpoint trim_start (s : string) : string :=
  match s with
  | String c rest => if is_white_space c then trim_start rest else s
  | EmptyString => EmptyString
  end.

(** Value of [c] as a digit in radix [R], if it is one. *)
Definition digit_value (R : Z) (c : ascii) : option Z :=
  let n := Z.of_nat (Ascii.nat_of_ascii c) in
  let d := if (48 <=? n) && (n <=? 57) then Some (n - 48)
           else if (97 <=? n) && (n <=? 122) then Some (n - 87)
           else if (65 <=? n) && (n <=? 90) then Some (n - 55)
           else None in
  match d with
  | Some v => if v <? R then Some v else None
  | None => None
  end.

(** Longest prefix of radix-[R] digits; [None] when it is empty. *)
Fixpoint parse_digits (R : Z) (acc : option Z) (s : string) : option Z :=
  match s with
  | String c rest =>
      match digit_value R c with
      | Some d => parse_digits R (Some (R * default 0 acc + d)) rest
      | None => acc
      end
  | EmptyString => acc
  end.

(** [parseInt(s)] without a radix argument. *)
Definition parseInt (s : string) : number :=
  let s1 := trim_start s in
  let '(sign, s2) :=
    match s1 with
    | String "-" rest => (-1, rest)
    | String "+" rest => (1, rest)
    | _ => (1, s1)
    end in
  let '(R, s3) :=
    match s2 with
    | String "0" (String "x" rest) => (16, rest)
    | String "0" (String "X" rest) => (16, rest)
    | _ => (10, s2)
    end in
  match parse_digits R None s3 with
  | Some m => Num (sign * m)
  | None => NaN
  end.

End JS.

Import JS.

(** ** Blocks *)

Module Block.

(** Modelled from the spec: [block.js] is not among the sources.  A block
    holds a payload, a height, a timestamp, the previous block's hash and
    its own hash (spec, data model); [blockchain.js] reads and assigns them
    as [body], [height], [time], [previousBlockHash] and [hash]. *)
Record t : Type := mk {
  hash : value;
  height : Z;
  body : value;
  time : value;
  previousBlockHash : value
}.

(** Modelled from the spec: [new Block(data)] of the absent [block.js].  The
    new block carries its payload; the other fields are placeholders until
    [_addBlock] assigns them. *)
Definition new (data : value) : t :=
  {| hash := VNull; height := 0; body := data;
     time := VNum (Num 0); previousBlockHash := VNull |}.

(** Modelled from the spec: [getBData()] of the absent [block.js]; it
    decodes the payload the block was built with. *)
Definition getBData (b : t) : value := body b.

(** The block as it is when its hash is computed: every field final, the
    hash itself still the placeholder. *)
Definition contents (b : t) : t :=
  {| hash := VNull; height := height b; body := body b;
     time := time b; previousBlockHash := previousBlockHash b |}.

End Block.

(** ** Promises, microtasks and the ledger object *)

(** Normal or abrupt completion of an external call. *)
Inductive completion (A : Type) : Type :=
| Normal (a : A)
| Throw (e : value).
Arguments Normal {A} a.
Arguments Throw {A} e.

(** What a promise of the class settles with: a block object or a plain
    value (string, [null], number, array). *)
Inductive result : Type :=
| RBlock (b : Block.t)
| RValue (v : value).

Inductive outcome : Type :=
| Fulfilled (r : result)
| Rejected (r : result).

(** The code waiting on a pending promise.  Only the promise of [_addBlock]
    is ever awaited while pending, by [initializeChain] and by the executor
    of [submitStar] (whose own promise is [p]). *)
Inductive reaction : Type :=
| ResumeInitializeChain
| ResumeSubmitStar (p : nat).

Inductive promise : Type :=
| Pending (reactions : list reaction)
| Settled (o : outcome).

(** A microtask: an async body resuming after one of its [await]s, with the
    local variables it closes over. *)
Inductive job : Type :=
| AddBlock_1 (p : nat) (block : Block.t) (chainHeight : Z)
| AddBlock_2 (p : nat) (block : Block.t) (chainHeight : Z) (previousBlockHash : value)
| InitializeChain_1 (awaited : outcome)
| SubmitStar_1 (p : nat) (awaited : outcome)
| ValidateChain_1 (p errorLog : nat) (block : Block.t) (valid : bool)
| ValidateChain_2 (p errorLog : nat) (block : Block.t) (previousBlock : result).

(** Calls and exceptions worth observing. *)
Inductive event : Type :=
| EvVerify (message address signature : string)
| EvCaught (error : value).

(** The [Blockchain] object ([chain], [height]) together with the part of
    the engine its methods touch: the clock read by [new Date()], the
    promises returned to callers, the [errorLog] arrays allocated by
    [validateChain], the microtask queue and the trace of events. *)
Record World : Type := mkWorld {
  chain : list Block.t;
  height : Z;
  now : Z;
  promises : list promise;
  arrays : list (list value);
  queue : list job;
  events : list event
}.

Definition with_chain (c : list Block.t) (h : Z) (w : World) : World :=
  {| chain := c; height := h; now := now w; promises := promises w;
     arrays := arrays w; queue := queue w; events := events w |}.

Definition with_now (ms : Z) (w : World) : World :=
  {| chain := chain w; height := height w; now := ms; promises := promises w;
     arrays := arrays w; queue := queue w; events := events w |}.

Definition with_promises (ps : list promise) (w : World) : World :=
  {| chain := chain w; height := height w; now := now w; promises := ps;
     arrays := arrays w; queue := queue w; events := events w |}.

Definition with_arrays (a : list (list value)) (w : World) : World :=
  {| chain := chain w; height := height w; now := now w; promises := promises w;
     arrays := a; queue := queue w; events := events w |}.

Definition with_queue (q : list job) (w : World) : World :=
  {| chain := chain w; height := height w; now := now w; promises := promises w;
     arrays := arrays w; queue := q; events := events w |}.

Definition with_events (e : list event) (w : World) : World :=
  {| chain := chain w; height := height w; now := now w; promises := promises w;
     arrays := arrays w; queue := queue w; events := e |}.

Definition enqueue (j : job) (w : World) : World :=
  with_queue (queue w ++ [j]) w.

Definition emit (e : event) (w : World) : World :=
  with_events (events w ++ [e]) w.

(** [new Promise(...)]: a fresh pending promise. *)
Definition new_promise (w : World) : nat * World :=
  (length (promises w), with_promises (promises w ++ [Pending []]) w).

Definition resume (o : outcome) (r : reaction) : job :=
  match r with
  | ResumeInitializeChain => InitializeChain_1 o
  | ResumeSubmitStar p => SubmitStar_1 p o
  end.

(** [resolve(v)] / [reject(e)]: settles a pending promise and schedules its
    reactions; has no effect on a promise already settled. *)
Definition settle (p : nat) (o : outcome) (w : World) : World :=
  match promises w !! p with
  | Some (Pending rs) =>
      with_queue (queue w ++ map (resume o) rs)
        (with_promises (<[p := Settled o]> (promises w)) w)
  | _ => w
  end.

(** [await q] on the promise of [_addBlock]: the rest of the caller runs as
    a reaction once [q] settles, or as the next microtask if it has. *)
Definition await_promise (q : nat) (r : reaction) (w : World) : World :=
  match promises w !! q with
  | Some (Pending rs) => with_promises (<[q := Pending (rs ++ [r])]> (promises w)) w
  | Some (Settled o) => enqueue (resume o r) w
  | None => w
  end.

(** [errorLog.push(v)] *)
Definition push (a : nat) (v : value) (w : World) : World :=
  match arrays w !! a with
  | Some items => with_arrays (<[a := items ++ [v]]> (arrays w)) w
  | None => w
  end.

Definition state (w : World) (p : nat) : option promise := promises w !! p.

(** ** The class [Blockchain] *)

Section Blockchain.

(** [SHA256(s).toString()] of crypto-js. *)
Variable SHA256 : string -> string.
(** [JSON.stringify(block)] *)
Variable JSON_stringify : Block.t -> string.
(** [bitcoinMessage.verify(message, address, signature)] *)
Variable verify : string -> string -> string -> completion bool.

(** Modelled from the spec: [validate()] of the absent [block.js]; it
    recomputes the digest over the stored contents and compares it with the
    stored hash. *)
Definition Block_validate (b : Block.t) : bool :=
  strict_eq (Block.hash b) (VStr (SHA256 (JSON_stringify (Block.contents b)))).

(** [new Date().getTime().toString().slice(0, -3)] *)
Definition seconds_string (self : World) : string :=
  slice_0_minus3 (Number_toString (now self)).

(** Reading a property of a Promise object that promises do not have, as in
    [self.getBlockByHeight(chainHeight).hash]. *)
Definition promise_property (k : string) (p : outcome) : value := VUndefined.

(** *** Methods whose executor contains no [await]

    Their promise is settled when the call returns, so they are functions
    from the ledger to the outcome. *)

Definition getChainHeight (self : World) : outcome :=
  Fulfilled (RValue (VNum (Num (height self)))).

Definition getBlockByHash (self : World) (hash : string) : outcome :=
  match List.find (fun block => strict_eq (Block.hash block) (VStr hash)) (chain self) with
  | None => Rejected (RValue (VStr (String.append "Can't find block with hash: " hash)))
  | Some foundBlock => Fulfilled (RBlock foundBlock)
  end.

Definition getBlockByHeight (self : World) (height : Z) : outcome :=
  match List.filter (fun p => Block.height p =? height) (chain self) with
  | block :: _ => Fulfilled (RBlock block)
  | [] => Fulfilled (RValue VNull)
  end.

(** [a && b] *)
Definition and_ (a b : value) : value := if truthy a then b else a.

(** The callback of [forEach] in [getStarsByWalletAddress]; [stars] is the
    array being filled. *)
Definition collect_star (address : string) (stars : list value) (block : Block.t)
  : list value :=
  if Block.height block =? 0 then stars
  else
    let blockBodyDecoded := Block.getBData block in
    let star :=
      and_ (and_ blockBodyDecoded
                 (VBool (strict_eq (get "address" blockBodyDecoded) (VStr address))))
           (get "star" blockBodyDecoded) in
    if truthy star then stars ++ [star] else stars.

Definition getStarsByWalletAddress (self : World) (address : string) : outcome :=
  Fulfilled (RValue (VArr (fold_left (collect_star address) (chain self) []))).

(** [requestMessageOwnershipVerification(address)] *)
Definition requestMessageOwnershipVerification (self : World) (address : string)
  : outcome :=
  Fulfilled (RValue (VStr
    (String.append address
       (String.append ":" (String.append (seconds_string self) ":starRegistry"))))).

(** *** [_addBlock]

    The executor runs up to [await self.getChainHeight()]: the height is
    read now, the rest runs in later microtasks. *)
Definition _addBlock (block : Block.t) (self : World) : nat * World :=
  let '(p, self) := new_promise self in
  match getChainHeight self with
  | Fulfilled (RValue (VNum (Num chainHeight))) =>
      (p, enqueue (AddBlock_1 p block chainHeight) self)
  | _ => (p, self)
  end.

(** After the first [await]: [self.getBlockByHeight(chainHeight).hash] reads
    [hash] off the promise itself, and the value is awaited. *)
Definition addBlock_1 (p : nat) (block : Block.t) (chainHeight : Z) (self : World)
  : World :=
  let previousBlockHash := promise_property "hash" (getBlockByHeight self chainHeight) in
  enqueue (AddBlock_2 p block chainHeight previousBlockHash) self.

(** After the second [await]: link, stamp, hash, push, advance the height,
    resolve. *)
Definition addBlock_2 (p : nat) (block : Block.t) (chainHeight : Z)
    (previousBlockHash : value) (self : World) : World :=
  let block :=
    {| Block.hash := Block.hash block;
       Block.height := chainHeight + 1;
       Block.body := Block.body block;
       Block.time := VStr (seconds_string self);
       Block.previousBlockHash := previousBlockHash |} in
  let hash := SHA256 (JSON_stringify block) in
  let block :=
    {| Block.hash := VStr hash;
       Block.height := Block.height block;
       Block.body := Block.body block;
       Block.time := Block.time block;
       Block.previousBlockHash := Block.previousBlockHash block |} in
  let self := with_chain (chain self ++ [block]) (height self + 1) self in
  settle p (Fulfilled (RValue (VStr "Block added"))) self.

(** *** [initializeChain] and the constructor *)

Definition genesis_data : value := VObj [("data", VStr "Genesis Block")].

Definition initializeChain (self : World) : World :=
  if height self =? -1 then
    let block := Block.new genesis_data in
    let '(q, self) := _addBlock block self in
    await_promise q ResumeInitializeChain self
  else self.

(** [initializeChain] has nothing left to do after its [await]. *)
Definition initializeChain_1 (awaited : outcome) (self : World) : World := self.

(** [new Blockchain()] in an engine whose clock shows [ms]: the state when
    the constructor returns. *)
Definition Blockchain_new (ms : Z) : World :=
  initializeChain
    {| chain := []; height := -1; now := ms; promises := [];
       arrays := []; queue := []; events := [] |}.

(** *** [submitStar] *)

Definition fiveMinutes : number := Num (60 * 5).

Definition messageTime (message : string) : number :=
  parseInt (ToString (split ":" message !! 1%nat)).

Definition currentTime (self : World) : number :=
  parseInt (seconds_string self).

Definition expired_message : value :=
  VStr "5 minutes or more has elapsed, can't register this new block".

Definition unverified_message (message address signature : string) : value :=
  VStr (String.append message (String.append ":" (String.append address
         (String.append ":" (String.append signature " can't be verified"))))).

Definition star_data (address message signature : string) (star : value) : value :=
  VObj [("address", VStr address); ("message", VStr message);
        ("signature", VStr signature); ("star", star)].

Definition submitStar (address message signature : string) (star : value)
    (self : World) : nat * World :=
  let '(p, self) := new_promise self in
  if ge (sub (currentTime self) (messageTime message)) fiveMinutes then
    (p, settle p (Rejected (RValue expired_message)) self)
  else
    let self := emit (EvVerify message address signature) self in
    match verify message address signature with
    | Throw error => (p, settle p (Rejected (RValue error)) self)
    | Normal false =>
        (p, settle p (Rejected (RValue (unverified_message message address signature))) self)
    | Normal true =>
        let block := Block.new (star_data address message signature star) in
        let '(q, self) := _addBlock block self in
        (p, await_promise q (ResumeSubmitStar p) self)
    end.

(** After [await self._addBlock(block)]. *)
Definition submitStar_1 (p : nat) (awaited : outcome) (self : World) : World :=
  match awaited with
  | Fulfilled _ => settle p (Fulfilled (RValue (VStr "Block added"))) self
  | Rejected error => settle p (Rejected error) self
  end.

(** *** [validateChain] *)

Definition new_array (w : World) : nat * World :=
  (length (arrays w), with_arrays (arrays w ++ [[]]) w).

Definition error_entry (text : string) (height : Z) : value :=
  VObj [("error", VStr (String.append text (Number_toString height)))].

(** The [TypeError] raised by a property read on [null]; its message text
    depends on the engine and is left out. *)
Definition TypeError : value := VObj [("name", VStr "TypeError")].

(** [previousBlock.hash] *)
Definition read_hash (previousBlock : result) : completion value :=
  match previousBlock with
  | RBlock b => Normal (Block.hash b)
  | RValue VNull | RValue VUndefined => Throw TypeError
  | RValue v => Normal (get "hash" v)
  end.

(** One turn of [forEach]: the async arrow function is called and runs up
    to [await block.validate()]. *)
Definition validate_each (p errorLog : nat) (self : World) (block : Block.t) : World :=
  enqueue (ValidateChain_1 p errorLog block (Block_validate block)) self.

Definition validateChain (self : World) : nat * World :=
  let '(errorLog, self) := new_array self in
  let '(p, self) := new_promise self in
  let self := fold_left (validate_each p errorLog) (chain self) self in
  match arrays self !! errorLog with
  | Some (e :: es) => (p, settle p (Rejected (RValue (VArr (e :: es)))) self)
  | _ => (p, settle p (Fulfilled (RValue (VStr "Chain is valid"))) self)
  end.

(** After [await block.validate()], up to [await self.getBlockByHeight(...)]. *)
Definition validateChain_1 (p errorLog : nat) (block : Block.t) (valid : bool)
    (self : World) : World :=
  let self :=
    if valid then self
    else push errorLog
           (error_entry "Block validation failed at height " (Block.height block)) self in
  match getBlockByHeight self (Block.height block - 1) with
  | Fulfilled previousBlock => enqueue (ValidateChain_2 p errorLog block previousBlock) self
  | Rejected error =>
      match error with
      | RValue e => settle p (Rejected error) (emit (EvCaught e) self)
      | RBlock _ => settle p (Rejected error) self
      end
  end.

(** After the second [await]: the linkage comparison, inside the [try]. *)
Definition validateChain_2 (p errorLog : nat) (block : Block.t)
    (previousBlock : result) (self : World) : World :=
  match read_hash previousBlock with
  | Normal previousHash =>
      if strict_eq previousHash (Block.previousBlockHash block) then self
      else push errorLog
             (error_entry "Previous block hash validation failed at height "
                (Block.height block)) self
  | Throw error => settle p (Rejected (RValue error)) (emit (EvCaught error) self)
  end.

(** *** The microtask loop *)

Definition run_job (j : job) (self : World) : World :=
  match j with
  | AddBlock_1 p block chainHeight => addBlock_1 p block chainHeight self
  | AddBlock_2 p block chainHeight previousBlockHash =>
      addBlock_2 p block chainHeight previousBlockHash self
  | InitializeChain_1 awaited => initializeChain_1 awaited self
  | SubmitStar_1 p awaited => submitStar_1 p awaited self
  | ValidateChain_1 p errorLog block valid => validateChain_1 p errorLog block valid self
  | ValidateChain_2 p errorLog block previousBlock =>
      validateChain_2 p errorLog block previousBlock self
  end.

(** Runs queued microtasks in order, at most [fuel] of them. *)
Fixpoint run_microtasks (fuel : nat) (self : World) : World :=
  match fuel with
  | O => self
  | S fuel =>
      match queue self with
      | [] => self
      | j :: rest => run_microtasks fuel (run_job j (with_queue rest self))
      end
  end.

(** The engine is idle: every microtask has run. *)
Definition idle (w : World) : Prop := queue w = [].


(** *** Ledgers a sequential caller can reach

    A caller that lets every operation finish before starting the next one
    (one that awaits each promise, or issues each call from its own
    request handler) sees the ledger only when the microtask queue is
    empty.  Time may pass between two calls. *)
Inductive reachable : World -> Prop :=
| reachable_new (ms : Z) :
    reachable (run_microtasks 3 (Blockchain_new ms))
| reachable_clock (w : World) (ms : Z) :
    reachable w -> reachable (with_now ms w)
| reachable_submitStar (w : World) (address message signature : string) (star : value) :
    reachable w ->
    reachable (run_microtasks 3 (snd (submitStar address message signature star w)))
| reachable_validateChain (w : World) :
    reachable w ->
    reachable (run_microtasks (2 * length (chain w)) (snd (validateChain w))).

(** The block that [_addBlock] pushes for [block] when it runs on [self]. *)
Definition appended (block : Block.t) (self : World) : Block.t :=
  let linked :=
    {| Block.hash := Block.hash block;
       Block.height := height self + 1;
       Block.body := Block.body block;
       Block.time := VStr (seconds_string self);
       Block.previousBlockHash := VUndefined |} in
  {| Block.hash := VStr (SHA256 (JSON_stringify linked));
     Block.height := height self + 1;
     Block.body := Block.body block;
     Block.time := VStr (seconds_string self);
     Block.previousBlockHash := VUndefined |}.

(** What holds of the block stored at index [i] of a reachable ledger. *)
Definition block_ok (i : nat) (b : Block.t) : Prop :=
  Block.height b = Z.of_nat i /\
  Block.previousBlockHash b = VUndefined /\
  Block.hash b = VStr (SHA256 (JSON_stringify (Block.contents b))) /\
  (i = 0%nat -> Block.body b = genesis_data) /\
  (i <> 0%nat -> exists address message signature star,
      Block.body b = star_data address message signature star).

Definition ledger_ok (w : World) : Prop :=
  idle w /\
  chain w <> [] /\
  height w = Z.of_nat (length (chain w)) - 1 /\
  (forall i b, chain w !! i = Some b -> block_ok i b) /\
  (forall p st, promises w !! p = Some st -> exists o, st = Settled o).

(** Among the blocks stored in [w], [b] is the only one carrying its hash:
    the digest has not collided on the blocks this ledger holds. *)
Definition carries_its_hash_alone (w : World) (b : Block.t) : Prop :=
  forall b', b' ∈ chain w -> Block.hash b' = Block.hash b -> b' = b.

End Blockchain.

(** ** The address query as the specification words it *)

Definition star_of (b : Block.t) : value := get "star" (Block.getBData b).

Definition address_is (address : string) (b : Block.t) : bool :=
  strict_eq (get "address" (Block.getBData b)) (VStr address).

(** Spec: every block except genesis whose payload address equals the
    queried one contributes its star, in ledger order. *)
Definition spec_getStarsByAddress (address : string) (blocks : list Block.t)
  : list value :=
  map star_of
    (List.filter (fun b => negb (Block.height b =? 0) && address_is address b) blocks).

(** What the code collects: the same blocks, less those whose star is not
    truthy. *)
Definition collected_stars (address : string) (blocks : list Block.t) : list value :=
  map star_of
    (List.filter
       (fun b => negb (Block.height b =? 0) && address_is address b && truthy (star_of b))
       blocks).

(** ** Stand-ins for the external functions, used to run the model *)

Definition accept_all (message address signature : string) : completion bool :=
  Normal true.

Definition reject_all (message address signature : string) : completion bool :=
  Normal false.

(** An injective stand-in for SHA256. *)
Definition toy_SHA256 (s : string) : string := s.

(** A serialisation that keeps the height apart. *)
Definition toy_stringify (b : Block.t) : string := pretty (Block.height b).

Definition demo_message : string := "1A1zP1:1700000000:starRegistry".

Definition demo_star : value := VObj [("story", VStr "Sirius")].

(** A fresh ledger at 1700000000.123 s, microtasks done ... *)
Definition fresh_ledger (SHA256 : string -> string) (JSON_stringify : Block.t -> string)
  : World :=
  run_microtasks SHA256 JSON_stringify 3 (Blockchain_new 1700000000123).

(** ... then one star submitted 299 s after the challenge was issued ... *)
Definition ledger_with_star (SHA256 : string -> string)
    (JSON_stringify : Block.t -> string) : World :=
  run_microtasks SHA256 JSON_stringify 3
    (snd (submitStar accept_all "1A1zP1" demo_message "sig" demo_star
            (with_now 1700000299999 (fresh_ledger SHA256 JSON_stringify)))).

(** ... then a second submission whose star is the empty string. *)
Definition ledger_with_empty_star (SHA256 : string -> string)
    (JSON_stringify : Block.t -> string) : World :=
  run_microtasks SHA256 JSON_stringify 3
    (snd (submitStar accept_all "1A1zP1" demo_message "sig" (VStr "")
            (ledger_with_star SHA256 JSON_stringify))).

Definition demo_genesis : World := fresh_ledger toy_SHA256 toy_stringify.
Definition demo_one_star : World := ledger_with_star toy_SHA256 toy_stringify.
Definition demo_empty_star : World := ledger_with_empty_star toy_SHA256 toy_stringify.

(** The blocks these ledgers hold. *)
Definition demo_block0 : Block.t :=
  {| Block.hash := VStr "0"; Block.height := 0; Block.body := genesis_data;
     Block.time := VStr "1700000000"; Block.previousBlockHash := VUndefined |}.

Definition demo_block1 : Block.t :=
  {| Block.hash := VStr "1"; Block.height := 1;
     Block.body := star_data "1A1zP1" demo_message "sig" demo_star;
     Block.time := VStr "1700000299"; Block.previousBlockHash := VUndefined |}.

Definition demo_block2 : Block.t :=
  {| Block.hash := VStr "2"; Block.height := 2;
     Block.body := star_data "1A1zP1" demo_message "sig" (VStr "");
     Block.time := VStr "1700000299"; Block.previousBlockHash := VUndefined |}.

(** ** Notions used in the statements *)

(** Every promise settled in [w] is settled the same way in [w']. *)
Definition keeps_settled (w w' : World) : Prop :=
  forall p o, promises w !! p = Some (Settled o) -> promises w' !! p = Some (Settled o).

(** The microtasks of one [validateChain] call, with promise [p] and log
    [errorLog]. *)
Definition validation_job (p errorLog : nat) (j : job) : Prop :=
  match j with
  | ValidateChain_1 p' e' _ _ | ValidateChain_2 p' e' _ _ => p' = p /\ e' = errorLog
  | _ => False
  end.

(** Microtasks still to run for a queued job, itself included. *)
Definition job_weight (j : job) : nat :=
  match j with
  | ValidateChain_1 _ _ _ _ => 2
  | _ => 1
  end.

(** [w'] differs from [w] at most in its arrays, queue and events. *)
Definition same_ledger (w w' : World) : Prop :=
  chain w' = chain w /\ height w' = height w /\ now w' = now w /\
  promises w' = promises w.

Definition total_weight (q : list job) : nat :=
  fold_right (fun j n => (job_weight j + n)%nat) 0%nat q.

Definition chain_is_valid : outcome := Fulfilled (RValue (VStr "Chain is valid")).

(** ** Further notions *)

(** Decimal digit characters, and strings made of them only. *)
Definition is_digit (c : ascii) : bool :=
  match digit_value 10 c with Some _ => true | None => false end.

Fixpoint all_digits (s : string) : bool :=
  match s with
  | EmptyString => true
  | String c rest => is_digit c && all_digits rest
  end.

(** The decimal digits of [x], most significant first; empty for 0. *)
Definition digits (x : N) : string := pretty_N_go x "".

(** [s.includes(c)] for a character. *)
Fixpoint has_char (c : ascii) (s : string) : bool :=
  match s with
  | EmptyString => false
  | String c' rest => Ascii.eqb c' c || has_char c rest
  end.

(** The message [requestMessageOwnershipVerification(address)] builds when
    the clock is that of [self]. *)
Definition challenge (address : string) (self : World) : string :=
  String.append address
    (String.append ":" (String.append (seconds_string self) ":starRegistry")).

(** What [getBlockByHeight(block.height - 1)] resolves with. *)
Definition predecessor (blocks : list Block.t) (block : Block.t) : result :=
  match List.filter (fun p => Block.height p =? Block.height block - 1) blocks with
  | previous :: _ => RBlock previous
  | [] => RValue VNull
  end.

(** The entry the linkage comparison of [block] pushes, if any. *)
Definition linkage_finding (block : Block.t) (previousBlock : result) : list value :=
  match read_hash previousBlock with
  | Normal previousHash =>
      if strict_eq previousHash (Block.previousBlockHash block) then []
      else [error_entry "Previous block hash validation failed at height "
              (Block.height block)]
  | Throw _ => []
  end.

(** The error the linkage comparison raises, if any. *)
Definition linkage_error (previousBlock : result) : list event :=
  match read_hash previousBlock with
  | Normal _ => []
  | Throw error => [EvCaught error]
  end.

(** A verifier that throws, as [bitcoinMessage.verify] does on a malformed
    signature. *)
Definition verify_error : value :=
  VObj [("name", VStr "Error"); ("message", VStr "Invalid signature length")].

Definition throw_all (message address signature : string) : completion bool :=
  Throw verify_error.

(** * Properties *)

(** ** The value model on samples *)

Example split_challenge :
  split ":" "1A1z:1700000000:starRegistry" = ["1A1z"; "1700000000"; "starRegistry"].
Proof. reflexivity. Qed.

Example split_no_colon : split ":" "hello" !! 1%nat = None.
Proof. reflexivity. Qed.

Example parseInt_decimal : parseInt "1700000000" = Num 1700000000.
Proof. reflexivity. Qed.

Example parseInt_prefix : parseInt "  -12ab" = Num (-12).
Proof. reflexivity. Qed.

Example parseInt_hex : parseInt "0x1f" = Num 31.
Proof. reflexivity. Qed.

Example parseInt_undefined : parseInt (ToString None) = NaN.
Proof. reflexivity. Qed.

Example slice_seconds : slice_0_minus3 (Number_toString 1700000000123) = "1700000000".
Proof. reflexivity. Qed.

Example challenge_message :
  requestMessageOwnershipVerification
    {| chain := []; height := -1; now := 1700000000123; promises := [];
       arrays := []; queue := []; events := [] |} "1A1zP1"
  = Fulfilled (RValue (VStr "1A1zP1:1700000000:starRegistry")).
Proof. vm_compute. reflexivity. Qed.

Example slice_short : slice_0_minus3 (Number_toString 999) = "".
Proof. reflexivity. Qed.

Section Theory.

Variable SHA256 : string -> string.
Variable JSON_stringify : Block.t -> string.
Variable verify : string -> string -> string -> completion bool.

Local Abbreviation run := (run_microtasks SHA256 JSON_stringify).
Local Abbreviation added := (Fulfilled (RValue (VStr "Block added"))).
Local Abbreviation ok := (ledger_ok SHA256 JSON_stringify).

(** ** The microtask loop *)

Lemma run_idle n w : idle w -> run n w = w.
Proof. unfold idle. intros Hq. destruct n; simpl; [done | by rewrite Hq]. Qed.

Lemma run_plus n m w : run (n + m) w = run m (run n w).
Proof.
  revert w. induction n as [|n IH]; intros w; simpl; [done |].
  destruct (queue w) eqn:Hq; [| apply IH].
  symmetry. by apply run_idle.
Qed.

Lemma lookup_snoc {A} (l : list A) (x : A) n :
  n = length l -> (l ++ [x]) !! n = Some x.
Proof. apply list_lookup_middle. Qed.

Lemma insert_snoc {A} (l : list A) (x y : A) n :
  n = length l -> <[n := y]> (l ++ [x]) = l ++ [y].
Proof.
  intros ->. rewrite insert_app_r_alt; [| lia]. by rewrite Nat.sub_diag.
Qed.

Lemma lookup_snoc2 {A} (l : list A) (x y : A) n :
  n = length l -> ((l ++ [x]) ++ [y]) !! n = Some x.
Proof. intros ->. rewrite <- app_assoc. by apply list_lookup_middle. Qed.

Lemma insert_snoc2 {A} (l : list A) (x y z : A) n :
  n = length l -> <[n := z]> ((l ++ [x]) ++ [y]) = (l ++ [z]) ++ [y].
Proof.
  intros ->. rewrite <- !app_assoc. rewrite insert_app_r_alt; [| lia].
  by rewrite Nat.sub_diag.
Qed.

Lemma length_snoc {A} (l : list A) (x : A) : length (l ++ [x]) = S (length l).
Proof. rewrite length_app. simpl. lia. Qed.

(** ** One append, run to completion *)

(** Two microtasks after [_addBlock] was called on an idle engine the block
    is in the chain, the height has advanced, the promise is fulfilled with
    the string ["Block added"] and the code awaiting it is scheduled. *)
Lemma addBlock_runs c h t ps ar ev b rs :
  let self := {| chain := c; height := h; now := t; promises := ps ++ [Pending rs];
                 arrays := ar; queue := [AddBlock_1 (length ps) b h]; events := ev |} in
  run 2 self =
  {| chain := c ++ [appended SHA256 JSON_stringify b (with_chain c h self)];
     height := h + 1; now := t; promises := ps ++ [Settled added];
     arrays := ar; queue := map (resume added) rs; events := ev |}.
Proof.
  simpl. unfold addBlock_1, addBlock_2, enqueue, settle, promise_property. simpl.
  rewrite lookup_snoc by done. simpl. by rewrite insert_snoc.
Qed.

Lemma Blockchain_new_runs ms :
  let init := {| chain := []; height := -1; now := ms; promises := [];
                 arrays := []; queue := []; events := [] |} in
  run 3 (Blockchain_new ms) =
  {| chain := [appended SHA256 JSON_stringify (Block.new genesis_data) init];
     height := 0; now := ms; promises := [Settled added];
     arrays := []; queue := []; events := [] |}.
Proof. reflexivity. Qed.

Lemma submitStar_runs address message signature star w :
  idle w ->
  ge (sub (currentTime w) (messageTime message)) fiveMinutes = false ->
  verify message address signature = Normal true ->
  submitStar verify address message signature star w
  = (length (promises w),
     {| chain := chain w; height := height w; now := now w;
        promises := (promises w ++ [Pending []])
                      ++ [Pending [ResumeSubmitStar (length (promises w))]];
        arrays := arrays w;
        queue := [AddBlock_1 (S (length (promises w)))
                    (Block.new (star_data address message signature star)) (height w)];
        events := events w ++ [EvVerify message address signature] |})
  /\ run 3 (snd (submitStar verify address message signature star w))
  = {| chain := chain w ++ [appended SHA256 JSON_stringify
                              (Block.new (star_data address message signature star)) w];
       height := height w + 1; now := now w;
       promises := (promises w ++ [Settled added]) ++ [Settled added];
       arrays := arrays w; queue := []; events := events w ++ [EvVerify message address signature] |}.
Proof.
  unfold idle. destruct w as [c h t ps ar q ev].
  cbn [chain height now promises arrays queue events].
  intros -> Hfresh Hverify.
  assert (Hsync : submitStar verify address message signature star
            {| chain := c; height := h; now := t; promises := ps; arrays := ar;
               queue := []; events := ev |}
          = (length ps,
             {| chain := c; height := h; now := t;
                promises := (ps ++ [Pending []]) ++ [Pending [ResumeSubmitStar (length ps)]];
                arrays := ar;
                queue := [AddBlock_1 (S (length ps))
                    (Block.new (star_data address message signature star)) h];
                events := ev ++ [EvVerify message address signature] |})).
  { unfold submitStar. simpl.
    change (currentTime _) with
      (currentTime {| chain := c; height := h; now := t; promises := ps; arrays := ar;
                       queue := []; events := ev |}).
    rewrite Hfresh, Hverify. simpl.
    unfold await_promise. simpl. rewrite !length_snoc.
    rewrite lookup_snoc by apply eq_sym, length_snoc. simpl.
    rewrite insert_snoc by apply eq_sym, length_snoc. reflexivity. }
  split; [exact Hsync |].
  rewrite Hsync. simpl snd.
  change 3%nat with (2 + 1)%nat. rewrite run_plus.
  rewrite <- (length_snoc ps (Pending [])).
  rewrite addBlock_runs. simpl.
  unfold submitStar_1, settle. simpl.
  rewrite lookup_snoc2 by done. simpl. rewrite insert_snoc2 by done. reflexivity.
Qed.

(** ** A settled promise never changes *)

Lemma keeps_settled_refl w : keeps_settled w w.
Proof. by intros p o. Qed.

Lemma keeps_settled_trans w1 w2 w3 :
  keeps_settled w1 w2 -> keeps_settled w2 w3 -> keeps_settled w1 w3.
Proof. intros H12 H23 p o Hp. by apply H23, H12. Qed.

Lemma keeps_settled_same w w' : promises w' = promises w -> keeps_settled w w'.
Proof. intros Heq p o. by rewrite Heq. Qed.

Lemma settle_keeps p o w : keeps_settled w (settle p o w).
Proof.
  intros p' o' Hp'. unfold settle.
  destruct (promises w !! p) as [[rs | o1] |] eqn:Hp; try done.
  simpl. rewrite list_lookup_insert_ne; [done |].
  intros ->. congruence.
Qed.

Lemma await_promise_keeps q r w : keeps_settled w (await_promise q r w).
Proof.
  intros p' o' Hp'. unfold await_promise.
  destruct (promises w !! q) as [[rs | o1] |] eqn:Hq; try done.
  simpl. rewrite list_lookup_insert_ne; [done |].
  intros ->. congruence.
Qed.

Lemma push_keeps a v w : keeps_settled w (push a v w).
Proof. unfold push. destruct (arrays w !! a); by apply keeps_settled_same. Qed.

Lemma run_job_keeps j w : keeps_settled w (run_job SHA256 JSON_stringify j w).
Proof.
  destruct j as [p b h | p b h prev | o | p o | p e b valid | p e b prev]; simpl.
  - by apply keeps_settled_same.
  - unfold addBlock_2.
    eapply keeps_settled_trans; [| apply settle_keeps]. by apply keeps_settled_same.
  - apply keeps_settled_refl.
  - unfold submitStar_1. destruct o; apply settle_keeps.
  - unfold validateChain_1.
    set (w' := if valid then w else push e _ w).
    assert (Hw' : keeps_settled w w').
    { subst w'. destruct valid; [apply keeps_settled_refl | apply push_keeps]. }
    destruct (getBlockByHeight _ _) as [r | [blk | e']].
    + apply (keeps_settled_trans _ w'); [done | by apply keeps_settled_same].
    + apply (keeps_settled_trans _ w'); [done | apply settle_keeps].
    + apply (keeps_settled_trans _ w'); [done |].
      apply (keeps_settled_trans _ (emit (EvCaught e') w'));
        [by apply keeps_settled_same | apply settle_keeps].
  - unfold validateChain_2. destruct (read_hash prev) as [ph | err].
    + destruct (strict_eq ph _); [apply keeps_settled_refl | apply push_keeps].
    + apply (keeps_settled_trans _ (emit (EvCaught err) w));
        [by apply keeps_settled_same | apply settle_keeps].
Qed.

Lemma run_keeps n w : keeps_settled w (run n w).
Proof.
  revert w. induction n as [|n IH]; intros w; simpl; [apply keeps_settled_refl |].
  destruct (queue w) as [|j rest] eqn:Hq; [apply keeps_settled_refl |].
  eapply keeps_settled_trans; [| apply IH].
  eapply keeps_settled_trans; [| apply run_job_keeps].
  by apply keeps_settled_same.
Qed.

(** ** [validateChain]: the synchronous part *)

Lemma validate_each_fold p e blocks w :
  fold_left (validate_each SHA256 JSON_stringify p e) blocks w =
  with_queue
    (queue w ++ map (fun b => ValidateChain_1 p e b (Block_validate SHA256 JSON_stringify b))
                    blocks) w.
Proof.
  revert w. induction blocks as [|b blocks IH]; intros w; simpl.
  - rewrite app_nil_r. by destruct w.
  - rewrite IH. unfold validate_each, enqueue, with_queue. simpl.
    by rewrite <- app_assoc.
Qed.

(** When [validateChain] returns no per-block check has run yet: the log is
    still empty and the promise is already resolved. *)
Lemma validateChain_returns w :
  validateChain SHA256 JSON_stringify w =
  (length (promises w),
   {| chain := chain w; height := height w; now := now w;
      promises := promises w ++ [Settled chain_is_valid];
      arrays := arrays w ++ [[]];
      queue := queue w ++
               map (fun b => ValidateChain_1 (length (promises w)) (length (arrays w)) b
                               (Block_validate SHA256 JSON_stringify b)) (chain w);
      events := events w |}).
Proof.
  unfold validateChain, new_array, new_promise. cbn [promises with_arrays arrays].
  rewrite validate_each_fold. cbn [with_queue with_promises with_arrays
    chain height now promises arrays queue events].
  rewrite lookup_snoc by done.
  unfold settle. cbn [promises queue with_queue with_promises chain height now arrays events].
  rewrite lookup_snoc by done. simpl.
  rewrite insert_snoc by done. by rewrite app_nil_r.
Qed.

(** ** [validateChain]: the deferred checks *)

Lemma getBlockByHeight_fulfilled w h : exists r, getBlockByHeight w h = Fulfilled r.
Proof. unfold getBlockByHeight. destruct (List.filter _ _); eauto. Qed.

Lemma total_weight_app q1 q2 :
  total_weight (q1 ++ q2) = (total_weight q1 + total_weight q2)%nat.
Proof. induction q1 as [|j q1 IH]; simpl; [done | rewrite IH; lia]. Qed.

Lemma same_ledger_refl w : same_ledger w w.
Proof. by repeat split. Qed.

Lemma same_ledger_trans w1 w2 w3 :
  same_ledger w1 w2 -> same_ledger w2 w3 -> same_ledger w1 w3.
Proof.
  intros (Hc & Hh & Hn & Hp) (Hc' & Hh' & Hn' & Hp').
  repeat split; congruence.
Qed.

Lemma push_same_ledger a v w : same_ledger w (push a v w) /\ queue (push a v w) = queue w.
Proof. unfold push. destruct (arrays w !! a); by repeat split. Qed.

(** One validation microtask leaves the ledger and the promises alone, and
    puts back at most its own continuation. *)
Lemma validation_job_runs p e o j rest w :
  promises w !! p = Some (Settled o) ->
  validation_job p e j ->
  let w' := run_job SHA256 JSON_stringify j (with_queue rest w) in
  same_ledger w w' /\
  exists more, queue w' = rest ++ more /\ Forall (validation_job p e) more /\
               (total_weight more + 1 = job_weight j)%nat.
Proof.
  intros Hp Hj.
  destruct j as [? ? ? | ? ? ? ? | ? | ? ? | p' e' b valid | p' e' b prev];
    simpl in Hj; try done; destruct Hj as [-> ->]; simpl.
  - unfold validateChain_1.
    set (w1 := if valid then with_queue rest w else push e _ (with_queue rest w)).
    assert (H1 : same_ledger w w1 /\ queue w1 = rest).
    { subst w1. destruct valid; [by repeat split |].
      destruct (push_same_ledger e
        (error_entry "Block validation failed at height " (Block.height b))
        (with_queue rest w)) as [Hs Hq].
      split; [| by rewrite Hq].
      eapply same_ledger_trans; [| apply Hs]. by repeat split. }
    destruct H1 as [Hs Hq].
    destruct (getBlockByHeight_fulfilled w1 (Block.height b - 1)) as [r ->].
    split.
    + eapply same_ledger_trans; [apply Hs | by repeat split].
    + exists [ValidateChain_2 p e b r]. simpl. rewrite Hq.
      split; [done |]. split; [| done]. by repeat constructor.
  - unfold validateChain_2. destruct (read_hash prev) as [ph | err].
    + destruct (strict_eq ph _).
      * split; [by repeat split |]. exists []. simpl. by rewrite app_nil_r.
      * destruct (push_same_ledger e
          (error_entry "Previous block hash validation failed at height " (Block.height b))
          (with_queue rest w)) as [Hs Hq].
        split; [eapply same_ledger_trans; [| apply Hs]; by repeat split |].
        exists []. rewrite Hq. simpl. by rewrite app_nil_r.
    + unfold settle. simpl. rewrite Hp.
      split; [by repeat split |]. exists []. simpl. by rewrite app_nil_r.
Qed.

(** With enough fuel the checks of a [validateChain] call all run; the
    ledger and the promises are as before. *)
Lemma validation_drains p e o n w :
  promises w !! p = Some (Settled o) ->
  Forall (validation_job p e) (queue w) ->
  (total_weight (queue w) <= n)%nat ->
  idle (run n w) /\ same_ledger w (run n w).
Proof.
  revert w. induction n as [|n IH]; intros w Hp Hall Hn.
  - simpl. split; [| apply same_ledger_refl].
    unfold idle. destruct (queue w) as [|j q]; [done |].
    simpl in Hn. destruct j; simpl in Hn; lia.
  - simpl. destruct (queue w) as [|j rest] eqn:Hq.
    + split; [done | apply same_ledger_refl].
    + inversion Hall as [| ? ? Hj Hrest]; subst.
      destruct (validation_job_runs p e o j rest w Hp Hj)
        as [Hs (more & Hq' & Hmore & Hw)].
      simpl in Hn.
      destruct (IH (run_job SHA256 JSON_stringify j (with_queue rest w))) as [Hi Hs'].
      * destruct Hs as (_ & _ & _ & ->). done.
      * rewrite Hq'. apply Forall_app. done.
      * rewrite Hq', total_weight_app. lia.
      * split; [done |]. eapply same_ledger_trans; [apply Hs | apply Hs'].
Qed.

(** ** Rejected submissions *)

Lemma settle_fresh ps o w :
  promises w = ps ++ [Pending []] ->
  settle (length ps) o w = with_promises (ps ++ [Settled o]) w.
Proof.
  intros Hps. unfold settle. rewrite Hps, lookup_snoc by done.
  rewrite insert_snoc by done. simpl. rewrite app_nil_r. by destruct w.
Qed.

(** A stale challenge is turned down before anything else happens. *)
Lemma submitStar_expired address message signature star w :
  ge (sub (currentTime w) (messageTime message)) fiveMinutes = true ->
  submitStar verify address message signature star w
  = (length (promises w),
     with_promises (promises w ++ [Settled (Rejected (RValue expired_message))]) w).
Proof.
  intros Hstale. unfold submitStar, new_promise.
  change (currentTime (with_promises _ w)) with (currentTime w). rewrite Hstale.
  by rewrite settle_fresh.
Qed.

(** A fresh challenge reaches the verifier; unless it accepts, the promise
    is rejected and nothing is queued. *)
Lemma submitStar_unverified address message signature star w :
  ge (sub (currentTime w) (messageTime message)) fiveMinutes = false ->
  verify message address signature <> Normal true ->
  exists error,
    submitStar verify address message signature star w
    = (length (promises w),
       with_promises (promises w ++ [Settled (Rejected (RValue error))])
         (emit (EvVerify message address signature) w)).
Proof.
  intros Hfresh Hverify. unfold submitStar, new_promise.
  change (currentTime (with_promises _ w)) with (currentTime w). rewrite Hfresh.
  destruct (verify message address signature) as [[|] | error]; [done | |].
  - eexists. by rewrite settle_fresh.
  - eexists. by rewrite settle_fresh.
Qed.

(** ** The ledger invariant *)

Lemma appended_new_hash data w :
  let b := appended SHA256 JSON_stringify (Block.new data) w in
  Block.hash b = VStr (SHA256 (JSON_stringify (Block.contents b))).
Proof. reflexivity. Qed.

Lemma all_settled_snoc ps o :
  (forall p st, ps !! p = Some st -> exists o', st = Settled o') ->
  forall p st, (ps ++ [Settled o]) !! p = Some st -> exists o', st = Settled o'.
Proof.
  intros Hall p st Hp. apply lookup_snoc_Some in Hp as [[_ Hp] | [_ <-]]; eauto.
Qed.

Lemma ledger_ok_new ms : ok (run 3 (Blockchain_new ms)).
Proof.
  rewrite Blockchain_new_runs.
  split; [done |]. split; [done |]. split; [done |]. split.
  - intros i b Hib. destruct i as [|i]; [| by destruct i].
    injection Hib as <-.
    split; [reflexivity |]. split; [reflexivity |]. split; [reflexivity |]. by split.
  - intros p st Hp. destruct p as [|p]; [| by destruct p].
    injection Hp as <-. eauto.
Qed.

Lemma ledger_ok_clock ms w : ok w -> ok (with_now ms w).
Proof.
  intros (Hi & Hne & Hh & Hb & Hp).
  split; [exact Hi |]. split; [exact Hne |]. split; [exact Hh |]. by split.
Qed.

Lemma ledger_ok_settled_only r ev w :
  ok w ->
  ok (with_promises (promises w ++ [Settled r]) (with_events ev w)).
Proof.
  intros (Hi & Hne & Hh & Hb & Hp).
  split; [exact Hi |]. split; [exact Hne |]. split; [exact Hh |].
  split; [exact Hb |]. simpl. by apply all_settled_snoc.
Qed.

Lemma ledger_ok_submitStar address message signature star w :
  ok w -> ok (run 3 (snd (submitStar verify address message signature star w))).
Proof.
  intros Hok.
  destruct (ge (sub (currentTime w) (messageTime message)) fiveMinutes) eqn:Hfresh.
  { rewrite submitStar_expired by done. simpl snd.
    rewrite run_idle by apply Hok.
    replace w with (with_events (events w) w) at 2 by (by destruct w).
    by apply ledger_ok_settled_only. }
  assert (Hdec : verify message address signature = Normal true \/
                 verify message address signature <> Normal true).
  { destruct (verify message address signature) as [[|] |]; auto. }
  destruct Hdec as [Hv | Hv].
  2: { destruct (submitStar_unverified address message signature star w Hfresh Hv)
         as [error ->]. simpl snd.
       rewrite run_idle by apply Hok.
       by apply (ledger_ok_settled_only _ (events w ++ [EvVerify message address signature])). }
  destruct Hok as (Hi & Hne & Hh & Hb & Hp).
  destruct (submitStar_runs address message signature star w Hi Hfresh Hv) as [_ ->].
  split; [done |]. cbn [chain height promises].
  split; [by destruct (chain w) |].
  split; [rewrite length_snoc; lia |].
  split.
  - intros i b Hib. apply lookup_snoc_Some in Hib as [[_ Hib] | [-> <-]]; [by apply Hb |].
    split; [simpl; lia |]. split; [reflexivity |]. split; [reflexivity |].
    split; [intros H0; by destruct (chain w) |].
    intros _. by exists address, message, signature, star.
  - rewrite <- app_assoc. intros p st Hpst.
    apply lookup_app_Some in Hpst as [Hpst | [_ Hpst]]; [by eapply Hp |].
    destruct (p - length (promises w))%nat as [|[|k]]; simpl in Hpst;
      [injection Hpst as <- | injection Hpst as <- | done]; eauto.
Qed.

Lemma total_weight_validations p e (f : Block.t -> bool) blocks :
  total_weight (map (fun b => ValidateChain_1 p e b (f b)) blocks) = (2 * length blocks)%nat.
Proof. induction blocks as [|b blocks IH]; simpl; [done | rewrite IH; lia]. Qed.

Lemma ledger_ok_validateChain w :
  ok w -> ok (run (2 * length (chain w)) (snd (validateChain SHA256 JSON_stringify w))).
Proof.
  intros (Hi & Hne & Hh & Hb & Hp).
  rewrite validateChain_returns. simpl snd. rewrite Hi. simpl app.
  match goal with |- ok (run ?n ?w1) =>
    destruct (validation_drains (length (promises w)) (length (arrays w))
                chain_is_valid n w1) as [Hidle (Hc & Hh' & _ & Hps)]
  end.
  - simpl. by apply lookup_snoc.
  - simpl. apply Forall_forall. intros j Hj.
    apply list_elem_of_fmap in Hj as (b & -> & _). by simpl.
  - simpl. by rewrite total_weight_validations.
  - cbn [chain height promises] in Hc, Hh', Hps.
    split; [exact Hidle |]. unfold ok, ledger_ok. rewrite Hc, Hh', Hps.
    split; [exact Hne |]. split; [exact Hh |]. split; [exact Hb |].
    by apply all_settled_snoc.
Qed.

Lemma reachable_ledger_ok w :
  reachable SHA256 JSON_stringify verify w -> ok w.
Proof.
  induction 1 as [ms | w ms _ IH | w address message signature star _ IH | w _ IH].
  - apply ledger_ok_new.
  - by apply ledger_ok_clock.
  - by apply ledger_ok_submitStar.
  - by apply ledger_ok_validateChain.
Qed.

(** ** Heights and linkage of the stored blocks *)

Lemma reachable_heights w :
  reachable SHA256 JSON_stringify verify w ->
  map Block.height (chain w) = map Z.of_nat (seq 0 (length (chain w))).
Proof.
  intros Hr. destruct (reachable_ledger_ok w Hr) as (_ & _ & _ & Hb & _).
  apply list_eq. intros i.
  change (map Block.height (chain w)) with (Block.height <$> chain w).
  change (map Z.of_nat (seq 0 (length (chain w)))) with (Z.of_nat <$> seq 0 (length (chain w))).
  rewrite !list_lookup_fmap.
  destruct (chain w !! i) as [b |] eqn:Hi; simpl.
  - apply Hb in Hi as Hok. destruct Hok as [-> _].
    apply lookup_lt_Some in Hi. by rewrite lookup_seq_lt.
  - apply lookup_ge_None in Hi. by rewrite lookup_seq_ge.
Qed.

(** C1 (as the code has it).  In every ledger a sequential caller can reach,
    the stored heights are exactly 0, 1, ..., [height], without gap or
    duplicate; but [previousBlockHash] is [undefined] in every block, so for
    no block above genesis does it equal the hash of the block below, which
    is a string.  The cause is [await self.getBlockByHeight(chainHeight).hash]
    in [_addBlock]: [.hash] is read off the promise, not off the block. *)
Theorem heights_contiguous_but_previousBlockHash_undefined w :
  reachable SHA256 JSON_stringify verify w ->
  map Block.height (chain w) = map Z.of_nat (seq 0 (length (chain w))) /\
  Z.of_nat (length (chain w)) = height w + 1 /\
  forall i prev b,
    chain w !! i = Some prev -> chain w !! S i = Some b ->
    Block.height b = Block.height prev + 1 /\
    Block.previousBlockHash b = VUndefined /\
    (exists digest, Block.hash prev = VStr digest) /\
    strict_eq (Block.previousBlockHash b) (Block.hash prev) = false.
Proof.
  intros Hr. split; [by apply reachable_heights |].
  destruct (reachable_ledger_ok w Hr) as (_ & _ & Hh & Hb & _).
  split; [lia |].
  intros i prev b Hprev Hcur.
  destruct (Hb _ _ Hprev) as (Hh0 & _ & Hhash0 & _).
  destruct (Hb _ _ Hcur) as (Hh1 & Hlink & _).
  split; [lia |]. split; [done |]. split; [eauto |].
  by rewrite Hlink, Hhash0.
Qed.

(** ** What [validateChain] answers *)

Lemma Block_validate_appended data w :
  Block_validate SHA256 JSON_stringify
    (appended SHA256 JSON_stringify (Block.new data) w) = true.
Proof. unfold Block_validate. simpl. apply String.eqb_refl. Qed.

Lemma ledger_with_star_chain :
  chain (ledger_with_star SHA256 JSON_stringify) =
  [appended SHA256 JSON_stringify (Block.new genesis_data)
     {| chain := []; height := -1; now := 1700000000123; promises := [];
        arrays := []; queue := []; events := [] |};
   appended SHA256 JSON_stringify
     (Block.new (star_data "1A1zP1" demo_message "sig" demo_star))
     (with_now 1700000299999 (fresh_ledger SHA256 JSON_stringify))].
Proof. vm_compute. reflexivity. Qed.

(** C2 (as the code has it).  The promise of [validateChain] is resolved
    with the string ["Chain is valid"] when the call returns, before any
    per-block check has run, and no later microtask can change it: the
    findings pushed to [errorLog] never reach the caller.  On the ledger
    holding genesis and one star the deferred checks record a linkage
    failure at height 1, and the answer is still ["Chain is valid"]. *)
Theorem validateChain_answers_before_checking :
  (forall w n,
     state (run n (snd (validateChain SHA256 JSON_stringify w)))
           (fst (validateChain SHA256 JSON_stringify w))
     = Some (Settled chain_is_valid)) /\
  (let w := ledger_with_star SHA256 JSON_stringify in
   let done := run 4 (snd (validateChain SHA256 JSON_stringify w)) in
   idle done /\
   arrays done =
     [[error_entry "Previous block hash validation failed at height " 1]] /\
   state done (fst (validateChain SHA256 JSON_stringify w))
     = Some (Settled chain_is_valid)).
Proof.
  assert (Hgen : forall w n,
     state (run n (snd (validateChain SHA256 JSON_stringify w)))
           (fst (validateChain SHA256 JSON_stringify w))
     = Some (Settled chain_is_valid)).
  { intros w n. apply run_keeps. rewrite validateChain_returns.
    cbn [fst snd promises]. by apply lookup_snoc. }
  split; [exact Hgen |].
  cbv zeta. split; [| split; [| apply Hgen]].
  - unfold idle. rewrite validateChain_returns, ledger_with_star_chain. cbn [map].
    rewrite !Block_validate_appended. vm_compute. reflexivity.
  - rewrite validateChain_returns, ledger_with_star_chain. cbn [map].
    rewrite !Block_validate_appended. vm_compute. reflexivity.
Qed.

(** C3 (as the code has it).  [validateChain] has no exemption for genesis:
    on a fresh ledger the deferred task of the genesis block passes the
    self-hash check, then looks up height -1, gets [null], and reading
    [previousBlock.hash] throws a [TypeError] inside the task.  The error is
    caught and handed to [reject], which no longer has any effect; no
    linkage finding is recorded. *)
Theorem validateChain_genesis_lookup_throws ms :
  let w := run 3 (Blockchain_new ms) in
  let done := run 2 (snd (validateChain SHA256 JSON_stringify w)) in
  Block.height <$> chain w = [0] /\
  getBlockByHeight w (0 - 1) = Fulfilled (RValue VNull) /\
  idle done /\
  events done = [EvCaught TypeError] /\
  arrays done = [[]] /\
  state done (fst (validateChain SHA256 JSON_stringify w)) = Some (Settled chain_is_valid).
Proof.
  cbv zeta. rewrite Blockchain_new_runs. cbv zeta.
  split; [reflexivity |]. split; [reflexivity |].
  unfold idle. rewrite validateChain_returns. cbn [chain map fst snd promises arrays].
  rewrite Block_validate_appended.
  repeat split; vm_compute; reflexivity.
Qed.

(** ** What a submission answers *)

(** C4 (as the code has it).  A submission that passes the freshness and
    signature checks appends one block, and its promise, like the promise
    of [_addBlock] it awaits, is fulfilled with the string ["Block added"],
    not with the block that was pushed. *)
Theorem submitStar_resolves_with_a_string address message signature star w :
  idle w ->
  ge (sub (currentTime w) (messageTime message)) fiveMinutes = false ->
  verify message address signature = Normal true ->
  let p := fst (submitStar verify address message signature star w) in
  let done := run 3 (snd (submitStar verify address message signature star w)) in
  exists b,
    chain done = chain w ++ [b] /\
    state done p = Some (Settled (Fulfilled (RValue (VStr "Block added")))) /\
    state done (S p) = Some (Settled (Fulfilled (RValue (VStr "Block added")))) /\
    state done p <> Some (Settled (Fulfilled (RBlock b))).
Proof.
  intros Hidle Hfresh Hverify.
  destruct (submitStar_runs address message signature star w Hidle Hfresh Hverify)
    as [Hsync Hrun].
  cbv zeta. rewrite Hrun, Hsync. cbn [fst]. unfold state. cbn [chain promises].
  eexists. split; [reflexivity |].
  assert (Hp : ((promises w ++ [Settled added]) ++ [Settled added]) !! length (promises w)
               = Some (Settled added)) by (by apply lookup_snoc2).
  split; [exact Hp |]. split.
  - apply lookup_snoc. by rewrite length_snoc.
  - rewrite Hp. congruence.
Qed.

(** Past the freshness test the verifier is called, once, whatever it
    answers. *)
Lemma submitStar_consults_verifier address message signature star w :
  ge (sub (currentTime w) (messageTime message)) fiveMinutes = false ->
  events (snd (submitStar verify address message signature star w))
  = events w ++ [EvVerify message address signature].
Proof.
  intros Hge. unfold submitStar, new_promise.
  change (currentTime (with_promises _ w)) with (currentTime w). rewrite Hge.
  destruct (verify message address signature) as [[|] | error].
  - unfold _addBlock, new_promise, getChainHeight, await_promise, enqueue. cbn.
    by destruct (_ !! _) as [[|]|].
  - cbn [snd]. rewrite settle_fresh by done. reflexivity.
  - cbn [snd]. rewrite settle_fresh by done. reflexivity.
Qed.

(** C5.  With a parsed timestamp [t] and the clock at [c] seconds: when
    [c - t >= 300] the promise is rejected with the expiry message and
    nothing else happens, in particular the verifier is not consulted and no
    block is queued; when [c - t < 300] the verifier is consulted exactly
    once, and if it accepts the block is appended and the promise
    fulfilled. *)
Theorem submitStar_freshness address message signature star w c t :
  currentTime w = Num c ->
  messageTime message = Num t ->
  let p := fst (submitStar verify address message signature star w) in
  let w1 := snd (submitStar verify address message signature star w) in
  (300 <= c - t ->
     p = length (promises w) /\
     w1 = with_promises (promises w ++ [Settled (Rejected (RValue expired_message))]) w /\
     events w1 = events w) /\
  (c - t < 300 ->
     events w1 = events w ++ [EvVerify message address signature] /\
     (idle w -> verify message address signature = Normal true ->
      state (run 3 w1) p = Some (Settled (Fulfilled (RValue (VStr "Block added")))) /\
      chain (run 3 w1) =
        chain w ++ [appended SHA256 JSON_stringify
                      (Block.new (star_data address message signature star)) w])).
Proof.
  intros Hc Ht. cbv zeta. split.
  - intros Hstale.
    assert (Hge : ge (sub (currentTime w) (messageTime message)) fiveMinutes = true).
    { rewrite Hc, Ht. simpl. apply Z.leb_le. lia. }
    rewrite (submitStar_expired _ _ _ _ _ Hge). by cbn [fst snd].
  - intros Hfresh.
    assert (Hge : ge (sub (currentTime w) (messageTime message)) fiveMinutes = false).
    { rewrite Hc, Ht. simpl. apply Z.leb_gt. lia. }
    split; [by apply submitStar_consults_verifier |].
    intros Hidle Hverify.
    destruct (submitStar_runs address message signature star w Hidle Hge Hverify)
      as [Hsync Hrun].
    rewrite Hrun, Hsync. cbn [fst]. unfold state. cbn [chain promises].
    split; [by apply lookup_snoc2 | reflexivity].
Qed.

(** ** Messages without a usable timestamp *)

Lemma messageTime_missing_field message :
  split ":" message !! 1%nat = None -> messageTime message = NaN.
Proof. unfold messageTime. by intros ->. Qed.

Lemma not_expired_when_NaN (now : number) : ge (sub now NaN) fiveMinutes = false.
Proof. by destruct now. Qed.

(** C10.  When the second colon-separated field of the message is missing
    or does not parse, the timestamp is [NaN], the comparison
    [currentTime - messageTime >= fiveMinutes] is false, and the submission
    goes on to the verifier, whose answer alone decides the outcome: a
    refusal rejects with the verification message, an acceptance appends
    the block. *)
Theorem submitStar_NaN_timestamp_reaches_verifier address message signature star w :
  messageTime message = NaN ->
  let p := fst (submitStar verify address message signature star w) in
  let w1 := snd (submitStar verify address message signature star w) in
  ge (sub (currentTime w) (messageTime message)) fiveMinutes = false /\
  events w1 = events w ++ [EvVerify message address signature] /\
  (verify message address signature = Normal false ->
   state w1 p = Some (Settled (Rejected (RValue (unverified_message message address signature))))) /\
  (idle w -> verify message address signature = Normal true ->
   state (run 3 w1) p = Some (Settled (Fulfilled (RValue (VStr "Block added")))) /\
   chain (run 3 w1) =
     chain w ++ [appended SHA256 JSON_stringify
                   (Block.new (star_data address message signature star)) w]).
Proof.
  intros Hnan. cbv zeta.
  assert (Hge : ge (sub (currentTime w) (messageTime message)) fiveMinutes = false)
    by (rewrite Hnan; apply not_expired_when_NaN).
  split; [exact Hge |]. split; [by apply submitStar_consults_verifier |]. split.
  - intros Hverify. unfold submitStar, new_promise.
    change (currentTime (with_promises _ w)) with (currentTime w).
    rewrite Hge, Hverify. cbn [fst snd]. rewrite settle_fresh by done.
    unfold state. cbn [promises with_promises]. by apply lookup_snoc.
  - intros Hidle Hverify.
    destruct (submitStar_runs address message signature star w Hidle Hge Hverify)
      as [Hsync Hrun].
    rewrite Hrun, Hsync. cbn [fst]. unfold state. cbn [chain promises].
    split; [by apply lookup_snoc2 | reflexivity].
Qed.

(** ** Construction *)

(** C6 (amended).  The constructor only starts the genesis append: when it
    returns the ledger is empty and [getChainHeight] answers -1.  Once the
    three microtasks it queued have run (and however many more are given
    time), the ledger has height 0 and exactly one block, at height 0,
    with no previous hash and the genesis payload. *)
Theorem genesis_present_once_microtasks_ran ms n :
  let born := Blockchain_new ms in
  let w := run (3 + n) born in
  (chain born = [] /\ getChainHeight born = Fulfilled (RValue (VNum (Num (-1))))) /\
  idle w /\
  getChainHeight w = Fulfilled (RValue (VNum (Num 0))) /\
  exists genesis,
    chain w = [genesis] /\
    Block.height genesis = 0 /\
    Block.previousBlockHash genesis = VUndefined /\
    Block.getBData genesis = genesis_data.
Proof.
  cbv zeta. split; [by split |].
  rewrite run_plus, Blockchain_new_runs. cbv zeta.
  rewrite run_idle by done.
  split; [done |]. split; [reflexivity |].
  eexists. split; [reflexivity |]. by repeat split.
Qed.

(** ** Queries *)

Lemma truthy_and_false v : truthy (and_ v (VBool false)) = false.
Proof. unfold and_. by destruct (truthy v) eqn:Hv. Qed.

Lemma address_is_truthy address b :
  address_is address b = true -> truthy (Block.getBData b) = true.
Proof. unfold address_is. by destruct (Block.getBData b). Qed.

Lemma collect_star_spec address stars b :
  collect_star address stars b =
  if negb (Block.height b =? 0) && address_is address b && truthy (star_of b)
  then stars ++ [star_of b] else stars.
Proof.
  unfold collect_star. destruct (Block.height b =? 0); [done |]. cbn [negb andb].
  fold (star_of b).
  change (strict_eq (get "address" (Block.getBData b)) (VStr address))
    with (address_is address b).
  destruct (address_is address b) eqn:Haddr; cbn [andb].
  - apply address_is_truthy in Haddr. unfold and_. rewrite Haddr. by cbn.
  - unfold and_ at 1. by rewrite !truthy_and_false.
Qed.

Lemma collect_star_fold address blocks stars :
  fold_left (collect_star address) blocks stars = stars ++ collected_stars address blocks.
Proof.
  revert stars. induction blocks as [|b blocks IH]; intros stars.
  - cbn. by rewrite app_nil_r.
  - cbn [fold_left]. rewrite IH, collect_star_spec. unfold collected_stars.
    cbn [List.filter].
    destruct (negb (Block.height b =? 0) && address_is address b && truthy (star_of b));
      [| done].
    cbn [map]. by rewrite <- app_assoc.
Qed.

(** C7 (amended).  [getStarsByWalletAddress] never rejects; it answers the
    stars of the blocks, in ledger order, that are not at height 0, whose
    payload address is the queried one and whose star is truthy.  When every
    matching star is truthy this is the list the specification describes.
    In a reachable ledger the ledger order is the ascending order of
    heights. *)
Theorem getStarsByWalletAddress_collects_truthy_stars w address :
  getStarsByWalletAddress w address
    = Fulfilled (RValue (VArr (collected_stars address (chain w)))) /\
  ((forall b, b ∈ chain w -> address_is address b = true -> truthy (star_of b) = true) ->
   collected_stars address (chain w) = spec_getStarsByAddress address (chain w)) /\
  (reachable SHA256 JSON_stringify verify w ->
   map Block.height (chain w) = map Z.of_nat (seq 0 (length (chain w)))).
Proof.
  split; [| split; [| apply reachable_heights]].
  - unfold getStarsByWalletAddress. by rewrite collect_star_fold.
  - intros Htruthy. unfold collected_stars, spec_getStarsByAddress. f_equal.
    apply filter_ext_in. intros b Hb. apply list_elem_of_In in Hb.
    destruct (address_is address b) eqn:Haddr.
    + by rewrite (Htruthy b Hb Haddr), andb_true_r.
    + by rewrite andb_false_r.
Qed.

Lemma find_the_only {A} (f : A -> bool) (l : list A) (x : A) :
  x ∈ l -> f x = true -> (forall y, y ∈ l -> f y = true -> y = x) ->
  List.find f l = Some x.
Proof.
  induction l as [|a l IH]; intros Hx Hfx Huniq; [by apply elem_of_nil in Hx |].
  cbn. destruct (f a) eqn:Hfa.
  - f_equal. apply Huniq; [left | done].
  - apply IH; [| done |].
    + apply elem_of_cons in Hx as [-> | Hx]; [congruence | done].
    + intros y Hy. apply Huniq. by right.
Qed.

Lemma filter_the_only {A} (f : A -> bool) (l : list A) (x : A) :
  x ∈ l -> f x = true -> (forall y, y ∈ l -> f y = true -> y = x) ->
  exists rest, List.filter f l = x :: rest.
Proof.
  induction l as [|a l IH]; intros Hx Hfx Huniq; [by apply elem_of_nil in Hx |].
  cbn. destruct (f a) eqn:Hfa.
  - exists (List.filter f l). f_equal. apply Huniq; [left | done].
  - apply IH; [| done |].
    + apply elem_of_cons in Hx as [-> | Hx]; [congruence | done].
    + intros y Hy. apply Huniq. by right.
Qed.

Lemma filter_none {A} (f : A -> bool) (l : list A) :
  (forall y, y ∈ l -> f y = false) -> List.filter f l = [].
Proof.
  induction l as [|a l IH]; intros Hnone; [done |].
  cbn. rewrite (Hnone a) by left. apply IH. intros y Hy. apply Hnone. by right.
Qed.

Lemma strict_eq_VStr v s : strict_eq v (VStr s) = true <-> v = VStr s.
Proof.
  destruct v as [| | x | [z |] | x | x | x]; cbn; try (split; [done | congruence]).
  rewrite String.eqb_eq. split; congruence.
Qed.

(** C8.  In a reachable ledger every stored block carries a string hash,
    and when no other stored block carries the same hash, [getBlockByHash]
    on that hash is fulfilled with this very block; in any ledger a hash
    that no block carries makes it reject with the not-found message. *)
Theorem getBlockByHash_roundtrip w :
  (reachable SHA256 JSON_stringify verify w ->
   forall b, b ∈ chain w -> carries_its_hash_alone w b ->
     exists digest, Block.hash b = VStr digest /\
                    getBlockByHash w digest = Fulfilled (RBlock b)) /\
  (forall hash, (forall b, b ∈ chain w -> Block.hash b <> VStr hash) ->
     getBlockByHash w hash
     = Rejected (RValue (VStr (String.append "Can't find block with hash: " hash)))).
Proof.
  split.
  - intros Hr b Hb Halone.
    destruct (reachable_ledger_ok w Hr) as (_ & _ & _ & Hok & _).
    destruct (proj1 (list_elem_of_lookup _ _) Hb) as [i Hi].
    destruct (Hok _ _ Hi) as (_ & _ & Hd & _).
    eexists. split; [exact Hd |].
    unfold getBlockByHash. erewrite find_the_only; [reflexivity | exact Hb | |].
    + by apply strict_eq_VStr.
    + intros b' Hb' Heq. apply strict_eq_VStr in Heq.
      apply Halone; [done | congruence].
  - intros hash Hnone. unfold getBlockByHash.
    destruct (List.find _ _) as [found |] eqn:Hfind; [| done].
    apply find_some in Hfind as [Hin Heq].
    apply strict_eq_VStr in Heq. apply list_elem_of_In in Hin.
    by destruct (Hnone found Hin).
Qed.

(** C9.  [getBlockByHeight] never rejects.  When no stored block has the
    requested height it is fulfilled with [null]; when some block has it,
    with a stored block of that height.  In a reachable ledger the heights in
    range are 0 .. [height], and the block answered for [h] is the one at
    index [h]. *)
Theorem getBlockByHeight_null_out_of_range w h :
  (forall e, getBlockByHeight w h <> Rejected e) /\
  ((forall b, b ∈ chain w -> Block.height b <> h) ->
   getBlockByHeight w h = Fulfilled (RValue VNull)) /\
  ((exists b, b ∈ chain w /\ Block.height b = h) ->
   exists b, getBlockByHeight w h = Fulfilled (RBlock b) /\
             b ∈ chain w /\ Block.height b = h) /\
  (reachable SHA256 JSON_stringify verify w ->
   (h < 0 \/ height w < h -> getBlockByHeight w h = Fulfilled (RValue VNull)) /\
   (0 <= h <= height w ->
    exists b, chain w !! Z.to_nat h = Some b /\ Block.height b = h /\
              getBlockByHeight w h = Fulfilled (RBlock b))).
Proof.
  assert (Hnull : (forall b, b ∈ chain w -> Block.height b <> h) ->
                  getBlockByHeight w h = Fulfilled (RValue VNull)).
  { intros Hnone. unfold getBlockByHeight. rewrite filter_none; [done |].
    intros b Hb. apply Z.eqb_neq. by apply Hnone. }
  split; [| split; [exact Hnull | split]].
  - intros e. by destruct (getBlockByHeight_fulfilled w h) as [r ->].
  - intros (b & Hb & Hh). unfold getBlockByHeight.
    destruct (List.filter _ _) as [|b' rest] eqn:Hf.
    + assert (Hin : In b (List.filter (fun p => Block.height p =? h) (chain w))).
      { apply filter_In. split; [by apply list_elem_of_In | by apply Z.eqb_eq]. }
      by rewrite Hf in Hin.
    + exists b'. split; [done |].
      assert (Hin : In b' (List.filter (fun p => Block.height p =? h) (chain w)))
        by (rewrite Hf; by left).
      apply filter_In in Hin as [Hin Heq].
      split; [by apply list_elem_of_In | by apply Z.eqb_eq].
  - intros Hr. destruct (reachable_ledger_ok w Hr) as (_ & _ & Hh & Hok & _). split.
    + intros Hout. apply Hnull. intros b Hb.
      apply list_elem_of_lookup in Hb as [i Hi].
      destruct (Hok _ _ Hi) as [-> _]. apply lookup_lt_Some in Hi. lia.
    + intros Hin.
      destruct (lookup_lt_is_Some_2 (chain w) (Z.to_nat h)) as [b Hb]; [lia |].
      destruct (Hok _ _ Hb) as [Hhb _].
      exists b. split; [done |]. split; [lia |].
      unfold getBlockByHeight.
      destruct (filter_the_only (fun p => Block.height p =? h) (chain w) b)
        as [rest ->]; [| | | done].
      * apply list_elem_of_lookup. eauto.
      * apply Z.eqb_eq. lia.
      * intros b' Hb' Heq. apply Z.eqb_eq in Heq.
        apply list_elem_of_lookup in Hb' as [i' Hi'].
        destruct (Hok _ _ Hi') as [Hh' _].
        assert (i' = Z.to_nat h) as -> by lia. congruence.
Qed.

End Theory.

(** * The model at work

    The statements above are instantiated with the stand-ins for the
    external functions and run on the sample ledgers. *)

Lemma demo_genesis_reachable :
  reachable toy_SHA256 toy_stringify accept_all demo_genesis.
Proof. unfold demo_genesis, fresh_ledger. apply reachable_new. Qed.

Lemma demo_one_star_reachable :
  reachable toy_SHA256 toy_stringify accept_all demo_one_star.
Proof.
  unfold demo_one_star, ledger_with_star.
  apply reachable_submitStar. apply reachable_clock.
  unfold fresh_ledger. apply reachable_new.
Qed.

Lemma demo_empty_star_reachable :
  reachable toy_SHA256 toy_stringify accept_all demo_empty_star.
Proof.
  unfold demo_empty_star, ledger_with_empty_star.
  apply reachable_submitStar. exact demo_one_star_reachable.
Qed.

Lemma demo_genesis_chain : chain demo_genesis = [demo_block0].
Proof. vm_compute. reflexivity. Qed.

Lemma demo_one_star_chain : chain demo_one_star = [demo_block0; demo_block1].
Proof. vm_compute. reflexivity. Qed.

Lemma demo_empty_star_chain :
  chain demo_empty_star = [demo_block0; demo_block1; demo_block2].
Proof. vm_compute. reflexivity. Qed.

Lemma demo_one_star_idle : idle demo_one_star.
Proof. vm_compute. reflexivity. Qed.

(** Two submissions issued back to back, without waiting for the first
    promise, both read the same height: the ledger ends with two blocks at
    height 1 and a cached height of 2. *)
Example unawaited_submissions_share_a_height :
  let w := with_now 1700000299999 demo_genesis in
  let w1 := snd (submitStar accept_all "1A1zP1" demo_message "sig" demo_star w) in
  let w2 := snd (submitStar accept_all "1A1zP1" demo_message "sig" demo_star w1) in
  let done := run_microtasks toy_SHA256 toy_stringify 6 w2 in
  idle done /\ map Block.height (chain done) = [0; 1; 1] /\ height done = 2.
Proof. vm_compute. by repeat split. Qed.

(** C1, at work: the ledger holding genesis and one star. *)
Lemma heights_contiguous_witness :
  reachable toy_SHA256 toy_stringify accept_all demo_one_star /\
  map Block.height (chain demo_one_star)
    = map Z.of_nat (seq 0 (length (chain demo_one_star))) /\
  Z.of_nat (length (chain demo_one_star)) = height demo_one_star + 1 /\
  Block.height demo_block1 = Block.height demo_block0 + 1 /\
  Block.previousBlockHash demo_block1 = VUndefined /\
  (exists digest, Block.hash demo_block0 = VStr digest) /\
  strict_eq (Block.previousBlockHash demo_block1) (Block.hash demo_block0) = false.
Proof.
  split; [exact demo_one_star_reachable |].
  destruct (heights_contiguous_but_previousBlockHash_undefined
              toy_SHA256 toy_stringify accept_all demo_one_star demo_one_star_reachable)
    as (Hheights & Hlen & Hlink).
  split; [exact Hheights |]. split; [exact Hlen |].
  apply (Hlink 0%nat demo_block0 demo_block1); rewrite demo_one_star_chain; reflexivity.
Defined.

(** C4, at work: a star accepted 299 s after its challenge. *)
Lemma submitStar_resolves_witness :
  idle (with_now 1700000299999 demo_genesis) /\
  ge (sub (currentTime (with_now 1700000299999 demo_genesis)) (messageTime demo_message))
     fiveMinutes = false /\
  accept_all demo_message "1A1zP1" "sig" = Normal true /\
  let p := fst (submitStar accept_all "1A1zP1" demo_message "sig" demo_star
                  (with_now 1700000299999 demo_genesis)) in
  let done := run_microtasks toy_SHA256 toy_stringify 3
                (snd (submitStar accept_all "1A1zP1" demo_message "sig" demo_star
                        (with_now 1700000299999 demo_genesis))) in
  exists b,
    chain done = chain (with_now 1700000299999 demo_genesis) ++ [b] /\
    state done p = Some (Settled (Fulfilled (RValue (VStr "Block added")))) /\
    state done (S p) = Some (Settled (Fulfilled (RValue (VStr "Block added")))) /\
    state done p <> Some (Settled (Fulfilled (RBlock b))).
Proof.
  assert (Hidle : idle (with_now 1700000299999 demo_genesis))
    by (vm_compute; reflexivity).
  assert (Hfresh : ge (sub (currentTime (with_now 1700000299999 demo_genesis))
                           (messageTime demo_message)) fiveMinutes = false)
    by (vm_compute; reflexivity).
  split; [exact Hidle |]. split; [exact Hfresh |]. split; [reflexivity |].
  exact (submitStar_resolves_with_a_string toy_SHA256 toy_stringify accept_all
           "1A1zP1" demo_message "sig" demo_star (with_now 1700000299999 demo_genesis)
           Hidle Hfresh eq_refl).
Defined.

(** C5, at work: the same challenge submitted exactly 300 s and 299 s after
    it was issued. *)
Lemma submitStar_freshness_witness :
  (currentTime (with_now 1700000300000 demo_genesis) = Num 1700000300 /\
   messageTime demo_message = Num 1700000000 /\
   300 <= 1700000300 - 1700000000 /\
   snd (submitStar accept_all "1A1zP1" demo_message "sig" demo_star
          (with_now 1700000300000 demo_genesis))
   = with_promises
       (promises (with_now 1700000300000 demo_genesis)
          ++ [Settled (Rejected (RValue expired_message))])
       (with_now 1700000300000 demo_genesis) /\
   events (snd (submitStar accept_all "1A1zP1" demo_message "sig" demo_star
                  (with_now 1700000300000 demo_genesis))) = []) /\
  (currentTime (with_now 1700000299999 demo_genesis) = Num 1700000299 /\
   1700000299 - 1700000000 < 300 /\
   idle (with_now 1700000299999 demo_genesis) /\
   accept_all demo_message "1A1zP1" "sig" = Normal true /\
   events (snd (submitStar accept_all "1A1zP1" demo_message "sig" demo_star
                  (with_now 1700000299999 demo_genesis)))
   = [EvVerify demo_message "1A1zP1" "sig"] /\
   state (run_microtasks toy_SHA256 toy_stringify 3
            (snd (submitStar accept_all "1A1zP1" demo_message "sig" demo_star
                    (with_now 1700000299999 demo_genesis)))) 1
   = Some (Settled (Fulfilled (RValue (VStr "Block added")))) /\
   chain (run_microtasks toy_SHA256 toy_stringify 3
            (snd (submitStar accept_all "1A1zP1" demo_message "sig" demo_star
                    (with_now 1700000299999 demo_genesis))))
   = [demo_block0; demo_block1]).
Proof.
  assert (Ht : messageTime demo_message = Num 1700000000) by (vm_compute; reflexivity).
  split.
  - assert (Hc : currentTime (with_now 1700000300000 demo_genesis) = Num 1700000300)
      by (vm_compute; reflexivity).
    destruct (submitStar_freshness toy_SHA256 toy_stringify accept_all
                "1A1zP1" demo_message "sig" demo_star _ _ _ Hc Ht) as [Hstale _].
    destruct Hstale as (_ & Hw1 & Hev); [lia |].
    split; [exact Hc |]. split; [exact Ht |]. split; [lia |].
    split; [exact Hw1 |]. rewrite Hev. vm_compute. reflexivity.
  - assert (Hc : currentTime (with_now 1700000299999 demo_genesis) = Num 1700000299)
      by (vm_compute; reflexivity).
    assert (Hidle : idle (with_now 1700000299999 demo_genesis))
      by (vm_compute; reflexivity).
    destruct (submitStar_freshness toy_SHA256 toy_stringify accept_all
                "1A1zP1" demo_message "sig" demo_star _ _ _ Hc Ht) as [_ Hfresh].
    destruct Hfresh as (Hev & Hok); [lia |].
    destruct (Hok Hidle eq_refl) as [Hp Hchain].
    split; [exact Hc |]. split; [lia |]. split; [exact Hidle |]. split; [reflexivity |].
    split; [rewrite Hev; vm_compute; reflexivity |].
    split; [rewrite <- Hp; vm_compute; reflexivity |].
    rewrite Hchain. vm_compute. reflexivity.
Defined.

(** C6: the claim fails when the constructor has just returned. *)
Lemma constructor_returns_before_genesis :
  height (Blockchain_new 1700000000123) = -1 /\
  chain (Blockchain_new 1700000000123) = [] /\
  getChainHeight (Blockchain_new 1700000000123) = Fulfilled (RValue (VNum (Num (-1)))) /\
  ~ (height (Blockchain_new 1700000000123) = 0 /\
     length (chain (Blockchain_new 1700000000123)) = 1%nat).
Proof.
  split; [reflexivity |]. split; [reflexivity |]. split; [reflexivity |].
  intros [Hh _]. vm_compute in Hh. discriminate Hh.
Qed.

(** C7: the claim fails on a ledger holding a block whose star is the empty
    string.  The block is not genesis and its payload address is the
    queried one, yet its star is not among those answered. *)
Lemma getStarsByWalletAddress_drops_empty_star :
  reachable toy_SHA256 toy_stringify accept_all demo_empty_star /\
  chain demo_empty_star = [demo_block0; demo_block1; demo_block2] /\
  address_is "1A1zP1" demo_block2 = true /\
  spec_getStarsByAddress "1A1zP1" (chain demo_empty_star) = [demo_star; VStr ""] /\
  getStarsByWalletAddress demo_empty_star "1A1zP1" = Fulfilled (RValue (VArr [demo_star])) /\
  getStarsByWalletAddress demo_empty_star "1A1zP1"
    <> Fulfilled (RValue (VArr (spec_getStarsByAddress "1A1zP1" (chain demo_empty_star)))).
Proof.
  split; [exact demo_empty_star_reachable |].
  split; [exact demo_empty_star_chain |].
  split; [vm_compute; reflexivity |].
  split; [vm_compute; reflexivity |].
  split; [vm_compute; reflexivity |].
  vm_compute. discriminate.
Qed.

(** C7, at work: the ledger holding genesis and one star. *)
Lemma getStarsByWalletAddress_witness :
  (forall b, b ∈ chain demo_one_star ->
     address_is "1A1zP1" b = true -> truthy (star_of b) = true) /\
  reachable toy_SHA256 toy_stringify accept_all demo_one_star /\
  getStarsByWalletAddress demo_one_star "1A1zP1"
    = Fulfilled (RValue (VArr (collected_stars "1A1zP1" (chain demo_one_star)))) /\
  collected_stars "1A1zP1" (chain demo_one_star)
    = spec_getStarsByAddress "1A1zP1" (chain demo_one_star) /\
  map Block.height (chain demo_one_star)
    = map Z.of_nat (seq 0 (length (chain demo_one_star))).
Proof.
  assert (Htruthy : forall b, b ∈ chain demo_one_star ->
            address_is "1A1zP1" b = true -> truthy (star_of b) = true).
  { intros b Hb. rewrite demo_one_star_chain in Hb.
    apply elem_of_cons in Hb as [-> | Hb]; [vm_compute; discriminate |].
    apply elem_of_cons in Hb as [-> | Hb]; [vm_compute; reflexivity |].
    by apply elem_of_nil in Hb. }
  destruct (getStarsByWalletAddress_collects_truthy_stars
              toy_SHA256 toy_stringify accept_all demo_one_star "1A1zP1")
    as (Hget & Hspec & Horder).
  split; [exact Htruthy |]. split; [exact demo_one_star_reachable |].
  split; [exact Hget |]. split; [exact (Hspec Htruthy) |].
  exact (Horder demo_one_star_reachable).
Defined.

(** C8, at work: the star block is found by its hash; an unknown hash is
    not found. *)
Lemma getBlockByHash_witness :
  reachable toy_SHA256 toy_stringify accept_all demo_one_star /\
  demo_block1 ∈ chain demo_one_star /\
  carries_its_hash_alone demo_one_star demo_block1 /\
  (exists digest, Block.hash demo_block1 = VStr digest /\
                  getBlockByHash demo_one_star digest = Fulfilled (RBlock demo_block1)) /\
  (forall b, b ∈ chain demo_one_star -> Block.hash b <> VStr "cafe") /\
  getBlockByHash demo_one_star "cafe"
    = Rejected (RValue (VStr (String.append "Can't find block with hash: " "cafe"))).
Proof.
  assert (Hin : demo_block1 ∈ chain demo_one_star).
  { rewrite demo_one_star_chain. apply elem_of_cons. right. apply elem_of_cons. by left. }
  assert (Halone : carries_its_hash_alone demo_one_star demo_block1).
  { intros b Hb. rewrite demo_one_star_chain in Hb.
    apply elem_of_cons in Hb as [-> | Hb]; [vm_compute; discriminate |].
    apply elem_of_cons in Hb as [-> | Hb]; [reflexivity |].
    by apply elem_of_nil in Hb. }
  assert (Hnone : forall b, b ∈ chain demo_one_star -> Block.hash b <> VStr "cafe").
  { intros b Hb. rewrite demo_one_star_chain in Hb.
    apply elem_of_cons in Hb as [-> | Hb]; [vm_compute; discriminate |].
    apply elem_of_cons in Hb as [-> | Hb]; [vm_compute; discriminate |].
    by apply elem_of_nil in Hb. }
  destruct (getBlockByHash_roundtrip toy_SHA256 toy_stringify accept_all demo_one_star)
    as [Hfound Hmissing].
  split; [exact demo_one_star_reachable |]. split; [exact Hin |].
  split; [exact Halone |].
  split; [exact (Hfound demo_one_star_reachable demo_block1 Hin Halone) |].
  split; [exact Hnone |]. exact (Hmissing "cafe" Hnone).
Defined.

(** C9, at work: heights 5 and -1 are answered with [null], height 1 with
    the block stored at index 1. *)
Lemma getBlockByHeight_witness :
  reachable toy_SHA256 toy_stringify accept_all demo_one_star /\
  (forall b, b ∈ chain demo_one_star -> Block.height b <> 5) /\
  getBlockByHeight demo_one_star 5 = Fulfilled (RValue VNull) /\
  (-1 < 0 \/ height demo_one_star < -1) /\
  getBlockByHeight demo_one_star (-1) = Fulfilled (RValue VNull) /\
  (exists b, b ∈ chain demo_one_star /\ Block.height b = 1) /\
  (exists b, getBlockByHeight demo_one_star 1 = Fulfilled (RBlock b) /\
             b ∈ chain demo_one_star /\ Block.height b = 1) /\
  0 <= 1 <= height demo_one_star /\
  (exists b, chain demo_one_star !! Z.to_nat 1 = Some b /\ Block.height b = 1 /\
             getBlockByHeight demo_one_star 1 = Fulfilled (RBlock b)).
Proof.
  assert (Hin : demo_block1 ∈ chain demo_one_star).
  { rewrite demo_one_star_chain. apply elem_of_cons. right. apply elem_of_cons. by left. }
  assert (Hnone : forall b, b ∈ chain demo_one_star -> Block.height b <> 5).
  { intros b Hb. rewrite demo_one_star_chain in Hb.
    apply elem_of_cons in Hb as [-> | Hb]; [vm_compute; discriminate |].
    apply elem_of_cons in Hb as [-> | Hb]; [vm_compute; discriminate |].
    by apply elem_of_nil in Hb. }
  assert (Hrange : 0 <= 1 <= height demo_one_star) by (vm_compute; split; discriminate).
  destruct (getBlockByHeight_null_out_of_range toy_SHA256 toy_stringify accept_all
              demo_one_star 5) as (_ & Habsent & _).
  destruct (getBlockByHeight_null_out_of_range toy_SHA256 toy_stringify accept_all
              demo_one_star (-1)) as (_ & _ & _ & Hbelow).
  destruct (getBlockByHeight_null_out_of_range toy_SHA256 toy_stringify accept_all
              demo_one_star 1) as (_ & _ & Hpresent & Hreach).
  split; [exact demo_one_star_reachable |]. split; [exact Hnone |].
  split; [exact (Habsent Hnone) |].
  split; [left; lia |].
  split; [exact (proj1 (Hbelow demo_one_star_reachable) (or_introl eq_refl)) |].
  split; [exists demo_block1; by split |].
  split; [apply Hpresent; exists demo_block1; by split |].
  split; [exact Hrange |].
  exact (proj2 (Hreach demo_one_star_reachable) Hrange).
Defined.

(** C10, at work: a message whose second field is a word, and one without
    any colon; the verifier is reached and decides. *)
Lemma submitStar_NaN_timestamp_witness :
  messageTime "1A1zP1:soon:starRegistry" = NaN /\
  split ":" "hello" !! 1%nat = None /\
  messageTime "hello" = NaN /\
  idle demo_genesis /\
  accept_all "1A1zP1:soon:starRegistry" "1A1zP1" "sig" = Normal true /\
  reject_all "hello" "1A1zP1" "sig" = Normal false /\
  events (snd (submitStar accept_all "1A1zP1" "1A1zP1:soon:starRegistry" "sig"
                 demo_star demo_genesis))
    = events demo_genesis ++ [EvVerify "1A1zP1:soon:starRegistry" "1A1zP1" "sig"] /\
  state (run_microtasks toy_SHA256 toy_stringify 3
           (snd (submitStar accept_all "1A1zP1" "1A1zP1:soon:starRegistry" "sig"
                   demo_star demo_genesis)))
        (fst (submitStar accept_all "1A1zP1" "1A1zP1:soon:starRegistry" "sig"
                demo_star demo_genesis))
    = Some (Settled (Fulfilled (RValue (VStr "Block added")))) /\
  state (snd (submitStar reject_all "1A1zP1" "hello" "sig" demo_star demo_genesis))
        (fst (submitStar reject_all "1A1zP1" "hello" "sig" demo_star demo_genesis))
    = Some (Settled (Rejected (RValue (unverified_message "hello" "1A1zP1" "sig")))).
Proof.
  assert (Hword : messageTime "1A1zP1:soon:starRegistry" = NaN) by (vm_compute; reflexivity).
  assert (Hnone : split ":" "hello" !! 1%nat = None) by (vm_compute; reflexivity).
  assert (Hidle : idle demo_genesis) by (vm_compute; reflexivity).
  destruct (submitStar_NaN_timestamp_reaches_verifier toy_SHA256 toy_stringify accept_all
              "1A1zP1" "1A1zP1:soon:starRegistry" "sig" demo_star demo_genesis Hword)
    as (_ & Hev & _ & Haccepted).
  destruct (submitStar_NaN_timestamp_reaches_verifier toy_SHA256 toy_stringify reject_all
              "1A1zP1" "hello" "sig" demo_star demo_genesis
              (messageTime_missing_field "hello" Hnone))
    as (_ & _ & Hrefused & _).
  split; [exact Hword |]. split; [exact Hnone |].
  split; [exact (messageTime_missing_field "hello" Hnone) |].
  split; [exact Hidle |]. split; [reflexivity |]. split; [reflexivity |].
  split; [exact Hev |].
  split; [exact (proj1 (Haccepted Hidle eq_refl)) |].
  exact (Hrefused eq_refl).
Defined.

(** * Further properties *)

(** ** Decimal strings *)

Lemma string_append_cons (x : ascii) (a b : string) : String x a +:+ b = String x (a +:+ b).
Proof. reflexivity. Qed.

Lemma string_append_assoc (a b c : string) : (a +:+ b) +:+ c = a +:+ (b +:+ c).
Proof. induction a as [|x a IH]; [done |]. by rewrite !string_append_cons, IH. Qed.

Lemma string_append_nil_r (a : string) : a +:+ "" = a.
Proof. induction a as [|x a IH]; [done |]. by rewrite string_append_cons, IH. Qed.

Lemma string_length_append (a b : string) :
  String.length (a +:+ b) = (String.length a + String.length b)%nat.
Proof.
  induction a as [|x a IH]; [done |]. rewrite string_append_cons. cbn [String.length].
  by rewrite IH.
Qed.

Lemma substring_prefix (a b : string) :
  String.substring 0 (String.length a) (a +:+ b) = a.
Proof.
  induction a as [|x a IH]; [by destruct b |].
  rewrite string_append_cons. cbn [String.length String.substring]. by rewrite IH.
Qed.

Lemma pretty_N_go_append x s : pretty_N_go x s = digits x +:+ s.
Proof.
  unfold digits. revert s. induction (N.lt_wf_0 x) as [x _ IH]; intros s.
  assert (x = 0 ∨ 0 < x)%N as [-> | Hx] by lia; [done |].
  rewrite !(pretty_N_go_step x) by done.
  assert (Hlt : (x `div` 10 < x)%N) by (by apply N.div_lt).
  rewrite (IH _ Hlt (String _ s)), (IH _ Hlt (String _ "")).
  by rewrite string_append_assoc.
Qed.

Lemma digits_step x :
  (0 < x)%N ->
  digits x = digits (x `div` 10) +:+ String (pretty_N_char (x `mod` 10)) "".
Proof.
  intros Hx. unfold digits at 1. rewrite pretty_N_go_step by done.
  apply pretty_N_go_append.
Qed.

Lemma digit_value_char k :
  (k < 10)%N -> digit_value 10 (pretty_N_char k) = Some (Z.of_N k).
Proof.
  intros Hk.
  assert (k = 0 ∨ k = 1 ∨ k = 2 ∨ k = 3 ∨ k = 4 ∨ k = 5 ∨ k = 6 ∨ k = 7 ∨ k = 8 ∨ k = 9)%N
    as Hcases by lia.
  repeat destruct Hcases as [-> | Hcases]; try reflexivity. by subst.
Qed.

Lemma parse_digits_digits x acc rest :
  default 0 acc = 0 ->
  parse_digits 10 acc (digits x +:+ rest)
  = parse_digits 10 (if decide (x = 0%N) then acc else Some (Z.of_N x)) rest.
Proof.
  revert acc rest. induction (N.lt_wf_0 x) as [x _ IH]; intros acc rest Hacc.
  assert (x = 0 ∨ 0 < x)%N as [-> | Hx] by lia; [done |].
  rewrite digits_step, string_append_assoc by done. rewrite string_append_cons. change ("" +:+ rest) with rest.
  rewrite IH by (done || by apply N.div_lt).
  cbn [parse_digits]. rewrite digit_value_char by (by apply N.mod_lt).
  rewrite (decide_False (P := x = 0%N)) by lia. f_equal. f_equal.
  assert (Hdm : Z.of_N x = 10 * Z.of_N (x `div` 10) + Z.of_N (x `mod` 10)).
  { rewrite (N.div_mod x 10) at 1 by done. by rewrite N2Z.inj_add, N2Z.inj_mul. }
  destruct (decide _) as [Hz | Hz]; cbn [default].
  - rewrite Hacc, Hdm, Hz. done.
  - by rewrite Hdm.
Qed.

Lemma is_digit_char k : (k < 10)%N -> is_digit (pretty_N_char k) = true.
Proof. intros Hk. unfold is_digit. by rewrite digit_value_char. Qed.

Lemma all_digits_go x s : all_digits s = true -> all_digits (pretty_N_go x s) = true.
Proof.
  revert s. induction (N.lt_wf_0 x) as [x _ IH]; intros s Hs.
  assert (x = 0 ∨ 0 < x)%N as [-> | Hx] by lia; [done |].
  rewrite pretty_N_go_step by done. apply IH; [by apply N.div_lt |].
  cbn [all_digits]. rewrite is_digit_char by (by apply N.mod_lt). done.
Qed.

Lemma all_digits_digits x : all_digits (digits x) = true.
Proof. by apply all_digits_go. Qed.

Lemma digits_nonempty x : (0 < x)%N -> digits x <> "".
Proof.
  intros Hx. rewrite digits_step by done. by destruct (digits (x `div` 10)).
Qed.

Lemma is_digit_cases c :
  is_digit c = true ->
  c = "0"%char \/ c = "1"%char \/ c = "2"%char \/ c = "3"%char \/ c = "4"%char \/
  c = "5"%char \/ c = "6"%char \/ c = "7"%char \/ c = "8"%char \/ c = "9"%char.
Proof.
  destruct c as [[] [] [] [] [] [] [] []]; vm_compute; intros H;
    try discriminate H; auto 10.
Qed.

Lemma is_white_space_digit c : is_digit c = true -> is_white_space c = false.
Proof.
  intros Hc. apply is_digit_cases in Hc.
  repeat destruct Hc as [-> | Hc]; try subst c; vm_compute; reflexivity.
Qed.

Lemma parseInt_all_digits s :
  all_digits s = true ->
  parseInt s = match parse_digits 10 None s with Some m => Num m | None => NaN end /\
  parseInt (String "-" s)
    = match parse_digits 10 None s with Some m => Num (- m) | None => NaN end.
Proof.
  destruct s as [|c1 s]; [done |]. cbn [all_digits]. intros Hs.
  apply andb_prop in Hs as [Hc1 Hs].
  assert (Hout : forall m : Z, 1 * m = m /\ -1 * m = - m) by (intros m; lia).
  unfold parseInt. cbn [trim_start].
  rewrite (is_white_space_digit c1 Hc1).
  replace (is_white_space "-") with false by (vm_compute; reflexivity).
  apply is_digit_cases in Hc1.
  destruct Hc1 as [-> | Hc1].
  { destruct s as [|c2 s].
    { cbn -[parse_digits Z.mul Z.opp].
      destruct (parse_digits _ _ _) as [m |]; [| done].
      by destruct (Hout m) as [-> ->]. }
    cbn [all_digits] in Hs.
    apply andb_prop in Hs as [Hc2 Hs]. apply is_digit_cases in Hc2.
    repeat destruct Hc2 as [-> | Hc2]; try subst c2;
      (cbn -[parse_digits Z.mul Z.opp];
       destruct (parse_digits _ _ _) as [m |]; [| done];
       by destruct (Hout m) as [-> ->]). }
  repeat destruct Hc1 as [-> | Hc1]; try subst c1;
    (cbn -[parse_digits Z.mul Z.opp];
     destruct (parse_digits _ _ _) as [m |]; [| done];
     by destruct (Hout m) as [-> ->]).
Qed.

Lemma parse_digits_of_digits x :
  parse_digits 10 None (digits x) = if decide (x = 0%N) then None else Some (Z.of_N x).
Proof.
  rewrite <- (string_append_nil_r (digits x)), parse_digits_digits by done.
  by destruct (decide _).
Qed.

Lemma pretty_pos_digits p : pretty (Zpos p) = digits (Npos p).
Proof. reflexivity. Qed.

Lemma pretty_neg_digits p : pretty (Zneg p) = String "-" (digits (Npos p)).
Proof. reflexivity. Qed.

(** [parseInt] reads back what [toString] prints. *)
Lemma parseInt_Number_toString z : parseInt (Number_toString z) = Num z.
Proof.
  unfold Number_toString. destruct z as [|p|p].
  - vm_compute. reflexivity.
  - rewrite pretty_pos_digits.
    destruct (parseInt_all_digits _ (all_digits_digits (Npos p))) as [-> _].
    by rewrite parse_digits_of_digits.
  - rewrite pretty_neg_digits.
    destruct (parseInt_all_digits _ (all_digits_digits (Npos p))) as [_ ->].
    by rewrite parse_digits_of_digits.
Qed.

Lemma digits_length (k : nat) x :
  (x < 10 ^ N.of_nat k)%N -> (String.length (digits x) <= k)%nat.
Proof.
  revert x. induction k as [|k IH]; intros x Hx.
  - change (10 ^ N.of_nat 0)%N with 1%N in Hx. assert (x = 0%N) as -> by lia. done.
  - assert (x = 0 ∨ 0 < x)%N as [-> | Hpos] by lia; [cbn [digits String.length]; change (digits 0) with ""; cbn; lia |].
    rewrite digits_step, string_length_append by done. cbn [String.length].
    assert (String.length (digits (x `div` 10)) <= k)%nat; [| lia].
    apply IH. rewrite Nat2N.inj_succ, N.pow_succ_r' in Hx.
    apply N.Div0.div_lt_upper_bound. lia.
Qed.

Lemma slice_of_short s : (String.length s <= 3)%nat -> slice_0_minus3 s = "".
Proof.
  intros Hs. unfold slice_0_minus3.
  replace (String.length s - 3)%nat with 0%nat by lia. by destruct s.
Qed.

Lemma digits_thousands x :
  (1000 <= x)%N -> slice_0_minus3 (digits x) = digits (x `div` 1000).
Proof.
  intros Hx.
  assert (H100 : ((x `div` 10) `div` 10 = x `div` 100)%N)
    by (by rewrite N.Div0.div_div).
  assert (H1000 : ((x `div` 100) `div` 10 = x `div` 1000)%N)
    by (by rewrite N.Div0.div_div).
  assert (Hx1 : (0 < x `div` 10)%N) by (apply N.div_str_pos; lia).
  assert (Hx2 : (0 < x `div` 100)%N) by (apply N.div_str_pos; lia).
  assert (Hd : exists tail, digits x = digits (x `div` 1000) +:+ tail /\
                            String.length tail = 3%nat).
  { eexists. split.
    - rewrite (digits_step x) by lia. rewrite (digits_step (x `div` 10)) by done.
      rewrite H100. rewrite (digits_step (x `div` 100)) by done.
      rewrite H1000. rewrite !string_append_assoc. reflexivity.
    - reflexivity. }
  destruct Hd as (tail & -> & Htail).
  unfold slice_0_minus3. rewrite string_length_append, Htail.
  replace (String.length (digits (x `div` 1000)) + 3 - 3)%nat
    with (String.length (digits (x `div` 1000))) by lia.
  apply substring_prefix.
Qed.

Lemma seconds_string_spec w :
  (1000 <= now w -> seconds_string w = Number_toString (now w / 1000)) /\
  (0 <= now w < 1000 -> seconds_string w = "").
Proof.
  unfold seconds_string, Number_toString. split.
  - intros Hms. destruct (now w) as [|p|p] eqn:Hnow; [lia | | lia].
    rewrite pretty_pos_digits, digits_thousands by lia.
    change 1000 with (Z.of_N 1000). rewrite <- (N2Z.inj_pos p), <- N2Z.inj_div.
    assert (Hq : (0 < N.pos p `div` 1000)%N) by (apply N.div_str_pos; lia).
    destruct (N.pos p `div` 1000)%N as [|q] eqn:Hdiv; [lia |]. reflexivity.
  - intros Hms. apply slice_of_short.
    destruct (now w) as [|p|p] eqn:Hnow; [cbv; lia | | lia].
    rewrite pretty_pos_digits. apply (digits_length 3). change (10 ^ N.of_nat 3)%N with 1000%N. lia.
Qed.

Lemma currentTime_seconds w : 1000 <= now w -> currentTime w = Num (now w / 1000).
Proof.
  intros Hms. unfold currentTime. rewrite (proj1 (seconds_string_spec w)) by done.
  apply parseInt_Number_toString.
Qed.

Lemma currentTime_early w : 0 <= now w < 1000 -> currentTime w = NaN.
Proof.
  intros Hms. unfold currentTime. by rewrite (proj2 (seconds_string_spec w)).
Qed.

Lemma split_until sep a t :
  has_char sep a = false -> split sep (a +:+ String sep t) = a :: split sep t.
Proof.
  induction a as [|c a IH]; intros Ha.
  - change ("" +:+ String sep t) with (String sep t). cbn [split].
    by rewrite Ascii.eqb_refl.
  - cbn [has_char] in Ha. apply orb_false_elim in Ha as [Hc Ha].
    rewrite string_append_cons. cbn [split]. rewrite Hc, IH by done. reflexivity.
Qed.

Lemma all_digits_no_colon s : all_digits s = true -> has_char ":" s = false.
Proof.
  induction s as [|c s IH]; [done |]. cbn [all_digits has_char]. intros Hs.
  apply andb_prop in Hs as [Hc Hs]. rewrite IH by done.
  apply is_digit_cases in Hc.
  repeat destruct Hc as [-> | Hc]; try subst c; reflexivity.
Qed.

Lemma seconds_string_no_colon w : 0 <= now w -> has_char ":" (seconds_string w) = false.
Proof.
  intros Hms. destruct (seconds_string_spec w) as [Hs Hshort].
  destruct (Z_lt_le_dec (now w) 1000) as [Hlt | Hge].
  - by rewrite Hshort.
  - rewrite Hs by done. apply all_digits_no_colon.
    unfold Number_toString. destruct (now w / 1000) as [|q|q] eqn:Hq.
    + reflexivity.
    + rewrite pretty_pos_digits. apply all_digits_digits.
    + pose proof (Z.div_pos (now w) 1000). lia.
Qed.

Lemma challenge_split address w :
  has_char ":" address = false -> 0 <= now w ->
  split ":" (challenge address w) = [address; seconds_string w; "starRegistry"].
Proof.
  intros Haddr Hms. unfold challenge. change (":" +:+ ?s) with (String ":" s).
  rewrite split_until by done.
  change ":starRegistry" with (String ":" "starRegistry").
  rewrite split_until by (by apply seconds_string_no_colon).
  reflexivity.
Qed.

Lemma challenge_messageTime address w :
  has_char ":" address = false -> 0 <= now w ->
  messageTime (challenge address w) = currentTime w.
Proof.
  intros Haddr Hms. unfold messageTime. by rewrite challenge_split.
Qed.

(** X1.  [new Date().getTime().toString().slice(0, -3)] is the clock in
    whole seconds, printed in decimal, once the clock shows at least 1000
    ms, and [parseInt] reads that number back; below 1000 ms the string is
    empty and the time read is [NaN]. *)
Theorem clock_is_read_in_whole_seconds w :
  (1000 <= now w ->
   seconds_string w = Number_toString (now w / 1000) /\
   currentTime w = Num (now w / 1000)) /\
  (0 <= now w < 1000 -> seconds_string w = "" /\ currentTime w = NaN).
Proof.
  destruct (seconds_string_spec w) as [Hs Hshort]. split.
  - intros Hms. split; [by apply Hs | by apply currentTime_seconds].
  - intros Hms. split; [by apply Hshort | by apply currentTime_early].
Qed.

(** X2.  For an address without a colon, the message built by
    [requestMessageOwnershipVerification] has exactly the three fields
    address, seconds and ["starRegistry"], and the timestamp [submitStar]
    parses out of it is the time [submitStar] itself would have read from
    the clock at that moment. *)
Theorem challenge_round_trip address w :
  has_char ":" address = false -> 0 <= now w ->
  requestMessageOwnershipVerification w address
    = Fulfilled (RValue (VStr (challenge address w))) /\
  split ":" (challenge address w) = [address; seconds_string w; "starRegistry"] /\
  messageTime (challenge address w) = currentTime w.
Proof.
  intros Haddr Hms. split; [reflexivity |].
  split; [by apply challenge_split | by apply challenge_messageTime].
Qed.

(** ** Submissions, queries and validation *)

Section Further.

Variable SHA256 : string -> string.
Variable JSON_stringify : Block.t -> string.
Variable verify : string -> string -> string -> completion bool.

Local Abbreviation run := (run_microtasks SHA256 JSON_stringify).
Local Abbreviation added := (Fulfilled (RValue (VStr "Block added"))).

Lemma settle_at ps l k rs o w :
  promises w = ps ++ l -> l !! k = Some (Pending rs) ->
  settle (length ps + k) o w
  = with_queue (queue w ++ map (resume o) rs)
      (with_promises (ps ++ <[k := Settled o]> l) w).
Proof.
  intros Hps Hk. unfold settle. rewrite Hps, lookup_app_r by lia.
  replace (length ps + k - length ps)%nat with k by lia.
  by rewrite Hk, insert_app_r.
Qed.

(** The synchronous part of an accepted submission, whatever is queued. *)
Lemma submitStar_accepted_returns address message signature star w :
  ge (sub (currentTime w) (messageTime message)) fiveMinutes = false ->
  verify message address signature = Normal true ->
  submitStar verify address message signature star w
  = (length (promises w),
     {| chain := chain w; height := height w; now := now w;
        promises := promises w
                    ++ [Pending []; Pending [ResumeSubmitStar (length (promises w))]];
        arrays := arrays w;
        queue := queue w ++ [AddBlock_1 (length (promises w) + 1)
                    (Block.new (star_data address message signature star)) (height w)];
        events := events w ++ [EvVerify message address signature] |}).
Proof.
  intros Hfresh Hverify. destruct w as [c h t ps ar q ev].
  unfold submitStar, new_promise. cbn [promises with_promises].
  change (currentTime _) with
    (currentTime {| chain := c; height := h; now := t; promises := ps; arrays := ar;
                     queue := q; events := ev |}).
  rewrite Hfresh, Hverify.
  unfold _addBlock, new_promise, getChainHeight, emit, enqueue, await_promise.
  cbn [chain height now promises arrays queue events with_promises with_events with_queue].
  rewrite length_snoc.
  rewrite lookup_snoc by apply eq_sym, length_snoc.
  rewrite insert_snoc by apply eq_sym, length_snoc.
  cbn [chain height now promises arrays queue events with_promises with_events with_queue app].
  rewrite <- app_assoc. cbn [app]. by rewrite Nat.add_1_r.
Qed.

Lemma run_step n j rest w :
  queue w = j :: rest ->
  run (S n) w = run n (run_job SHA256 JSON_stringify j (with_queue rest w)).
Proof. intros Hq. cbn [run_microtasks]. by rewrite Hq. Qed.

(** X7.  Two accepted submissions issued on an idle engine one right after
    the other, before any microtask runs, both read the same height: six
    microtasks later both promises are fulfilled, the chain has two more
    blocks carrying the same height, and the cached height has advanced by
    two. *)
Theorem unawaited_submissions_collide
    address1 message1 signature1 star1 address2 message2 signature2 star2 w :
  idle w ->
  ge (sub (currentTime w) (messageTime message1)) fiveMinutes = false ->
  ge (sub (currentTime w) (messageTime message2)) fiveMinutes = false ->
  verify message1 address1 signature1 = Normal true ->
  verify message2 address2 signature2 = Normal true ->
  let first := submitStar verify address1 message1 signature1 star1 w in
  let second := submitStar verify address2 message2 signature2 star2 (snd first) in
  let done := run 6 (snd second) in
  idle done /\
  chain done = chain w
    ++ [appended SHA256 JSON_stringify
          (Block.new (star_data address1 message1 signature1 star1)) w;
        appended SHA256 JSON_stringify
          (Block.new (star_data address2 message2 signature2 star2)) w] /\
  height done = height w + 2 /\
  state done (fst first) = Some (Settled added) /\
  state done (fst second) = Some (Settled added).
Proof.
  unfold idle. destruct w as [c h t ps ar q ev]. cbn [queue].
  intros -> Hfresh1 Hfresh2 Hverify1 Hverify2. cbv zeta.
  rewrite (submitStar_accepted_returns _ _ _ _ _ Hfresh1 Hverify1).
  cbn [fst snd chain height now promises arrays queue events app].
  rewrite (submitStar_accepted_returns address2 message2 signature2 star2);
    [| exact Hfresh2 | exact Hverify2].
  cbn [fst snd chain height now promises arrays queue events app].
  rewrite <- !app_assoc, !length_app. cbn [app length].
  replace (length ps + 2 + 1)%nat with (length ps + 3)%nat by lia.
  match goal with |- context [run 6 ?W] => set (w2 := W) end.
  assert (Hrun : run 6 w2 =
    {| chain := c ++ [appended SHA256 JSON_stringify
                        (Block.new (star_data address1 message1 signature1 star1))
                        {| chain := c; height := h; now := t; promises := ps;
                           arrays := ar; queue := []; events := ev |};
                      appended SHA256 JSON_stringify
                        (Block.new (star_data address2 message2 signature2 star2))
                        {| chain := c; height := h; now := t; promises := ps;
                           arrays := ar; queue := []; events := ev |}];
       height := h + 1 + 1; now := t;
       promises := ps ++ [Settled added; Settled added; Settled added; Settled added];
       arrays := ar; queue := [];
       events := ev ++ [EvVerify message1 address1 signature1;
                        EvVerify message2 address2 signature2] |}).
  { subst w2.
    erewrite run_step by reflexivity. cbn [run_job].
    unfold addBlock_1, promise_property, enqueue, with_queue.
    cbn [chain height now promises arrays queue events app].
    erewrite run_step by reflexivity. cbn [run_job].
    unfold addBlock_1, promise_property, enqueue, with_queue.
    cbn [chain height now promises arrays queue events app].
    erewrite run_step by reflexivity. cbn [run_job].
    unfold addBlock_2, with_chain, with_queue.
    cbn [chain height now promises arrays queue events app Block.hash Block.height
         Block.body Block.time Block.previousBlockHash].
    erewrite settle_at; [| reflexivity | reflexivity].
    unfold with_queue, with_promises.
    cbn [chain height now promises arrays queue events app map resume].
    erewrite run_step by reflexivity. cbn [run_job].
    unfold addBlock_2, with_chain, with_queue.
    cbn [chain height now promises arrays queue events app Block.hash Block.height
         Block.body Block.time Block.previousBlockHash].
    erewrite settle_at; [| reflexivity | reflexivity].
    unfold with_queue, with_promises.
    cbn [chain height now promises arrays queue events app map resume].
    erewrite run_step by reflexivity. cbn [run_job].
    unfold submitStar_1, with_queue.
    cbn [chain height now promises arrays queue events app].
    rewrite <- (Nat.add_0_r (length ps)) at 1.
    erewrite settle_at; [| reflexivity | reflexivity].
    unfold with_queue, with_promises.
    cbn [chain height now promises arrays queue events app map resume].
    erewrite run_step by reflexivity. cbn [run_job].
    unfold submitStar_1, with_queue.
    cbn [chain height now promises arrays queue events app].
    erewrite settle_at; [| reflexivity | reflexivity].
    unfold with_queue, with_promises.
    cbn [chain height now promises arrays queue events app map resume run_microtasks].
    rewrite <- app_assoc. reflexivity. }
  rewrite Hrun. unfold state. cbn [chain height promises queue].
  split; [done |]. split; [done |]. split; [lia |]. split.
  - rewrite <- (Nat.add_0_r (length ps)). by rewrite lookup_app_r, Nat.add_0_r, Nat.sub_diag by lia.
  - rewrite lookup_app_r by lia.
    by replace (length ps + 2 - length ps)%nat with 2%nat by lia.
Qed.

(** X4.  A submission that is stale, or that the verifier does not accept,
    changes neither the chain nor the height and queues nothing; its promise
    is rejected when the call returns, and when the verifier throws, with
    the very error it threw. *)
Theorem submitStar_refusal_leaves_ledger address message signature star w :
  let p := fst (submitStar verify address message signature star w) in
  let w1 := snd (submitStar verify address message signature star w) in
  (ge (sub (currentTime w) (messageTime message)) fiveMinutes = true \/
   verify message address signature <> Normal true) ->
  chain w1 = chain w /\ height w1 = height w /\ queue w1 = queue w /\
  (exists error, state w1 p = Some (Settled (Rejected (RValue error)))) /\
  (forall error,
     ge (sub (currentTime w) (messageTime message)) fiveMinutes = false ->
     verify message address signature = Throw error ->
     state w1 p = Some (Settled (Rejected (RValue error)))).
Proof.
  cbv zeta. intros Hrefused.
  destruct (ge (sub (currentTime w) (messageTime message)) fiveMinutes) eqn:Hfresh.
  - rewrite (submitStar_expired verify _ _ _ _ _ Hfresh). cbn [fst snd].
    unfold state. cbn [chain height queue promises with_promises].
    split; [done |]. split; [done |]. split; [done |]. split; [| done].
    eexists. by apply lookup_snoc.
  - destruct Hrefused as [Hstale | Hverify]; [done |].
    assert (Hcases : exists error,
      submitStar verify address message signature star w
      = (length (promises w),
         with_promises (promises w ++ [Settled (Rejected (RValue error))])
           (emit (EvVerify message address signature) w)) /\
      forall e, verify message address signature = Throw e -> error = e).
    { unfold submitStar, new_promise.
      change (currentTime (with_promises _ w)) with (currentTime w). rewrite Hfresh.
      destruct (verify message address signature) as [[|] | error]; [done | |].
      - eexists. split; [by rewrite settle_fresh | done].
      - eexists. split; [by rewrite settle_fresh |]. by intros e [= ->]. }
    destruct Hcases as (error & -> & Hthrown). cbn [fst snd].
    unfold state. cbn [chain height queue promises with_promises emit with_events].
    split; [done |]. split; [done |]. split; [done |]. split.
    + eexists. by apply lookup_snoc.
    + intros e _ He. rewrite <- (Hthrown e He). by apply lookup_snoc.
Qed.

(** X10.  In a reachable ledger every stored block carries, as a string,
    the digest of its own contents (all other fields final, the hash field
    still the placeholder), so its self-check passes. *)
Theorem stored_blocks_pass_their_own_check w b :
  reachable SHA256 JSON_stringify verify w -> b ∈ chain w ->
  Block.hash b = VStr (SHA256 (JSON_stringify (Block.contents b))) /\
  Block_validate SHA256 JSON_stringify b = true.
Proof.
  intros Hr Hb.
  destruct (reachable_ledger_ok _ _ _ w Hr) as (_ & _ & _ & Hok & _).
  apply list_elem_of_lookup in Hb as [i Hi].
  destruct (Hok _ _ Hi) as (_ & _ & Hhash & _).
  split; [done |]. unfold Block_validate. rewrite Hhash. cbn [strict_eq].
  apply String.eqb_refl.
Qed.

(** X11.  On a reachable ledger [initializeChain] does nothing: the cached
    height is the number of blocks minus one, never -1 again, and the block
    at index 0 is at height 0 with the genesis payload. *)
Theorem genesis_is_never_recreated w :
  reachable SHA256 JSON_stringify verify w ->
  initializeChain w = w /\
  (exists n, getChainHeight w = Fulfilled (RValue (VNum (Num (Z.of_nat n)))) /\
             length (chain w) = S n) /\
  exists genesis,
    chain w !! 0%nat = Some genesis /\ Block.height genesis = 0 /\
    Block.getBData genesis = genesis_data.
Proof.
  intros Hr.
  destruct (reachable_ledger_ok _ _ _ w Hr) as (_ & Hne & Hh & Hok & _).
  destruct (chain w) as [|g rest] eqn:Hc; [done |].
  split; [| split].
  - unfold initializeChain. rewrite Hh. cbn [length].
    destruct (_ =? -1) eqn:Heq; [| done]. apply Z.eqb_eq in Heq. lia.
  - exists (length rest). split; [| done]. unfold getChainHeight. rewrite Hh.
    cbn [length]. do 4 f_equal. lia.
  - exists g. split; [done |]. destruct (Hok 0%nat g eq_refl) as (Hg & _ & _ & Hbody & _).
    split; [done | by apply Hbody].
Qed.

(** X12.  In any ledger, [getBlockByHash] is fulfilled only with a stored
    block whose hash is the string asked for, is fulfilled whenever some
    stored block carries it, and is never fulfilled with anything but a
    block. *)
Theorem getBlockByHash_finds_a_carrier w hash :
  (forall b, getBlockByHash w hash = Fulfilled (RBlock b) ->
     b ∈ chain w /\ Block.hash b = VStr hash) /\
  ((exists b, b ∈ chain w /\ Block.hash b = VStr hash) ->
   exists b, getBlockByHash w hash = Fulfilled (RBlock b)) /\
  (forall r, getBlockByHash w hash <> Fulfilled (RValue r)).
Proof.
  unfold getBlockByHash.
  destruct (List.find _ _) as [found |] eqn:Hfind.
  - apply find_some in Hfind as [Hin Heq].
    apply strict_eq_VStr in Heq. apply list_elem_of_In in Hin.
    split; [by intros b [= <-] |]. split; [eauto | done].
  - split; [done |]. split; [| done].
    intros (b & Hb & Hhash). apply list_elem_of_In in Hb.
    pose proof (find_none _ _ Hfind b Hb) as Hno. cbn in Hno.
    rewrite Hhash in Hno. cbn in Hno. by rewrite String.eqb_refl in Hno.
Qed.

Lemma collected_stars_app address l1 l2 :
  collected_stars address (l1 ++ l2)
  = collected_stars address l1 ++ collected_stars address l2.
Proof. unfold collected_stars. by rewrite List.filter_app, List.map_app. Qed.

Lemma collected_stars_appended address' address message signature star w :
  height w + 1 <> 0 ->
  collected_stars address'
    [appended SHA256 JSON_stringify
       (Block.new (star_data address message signature star)) w]
  = if String.eqb address address' && truthy star then [star] else [].
Proof.
  intros Hh. unfold collected_stars. cbn [List.filter].
  unfold address_is, star_of, Block.getBData, appended, Block.new, star_data.
  cbn [Block.height Block.body get assoc strict_eq].
  change (String.eqb "address" "address") with true.
  change (String.eqb "star" "address") with false.
  change (String.eqb "star" "message") with false.
  change (String.eqb "star" "signature") with false.
  change (String.eqb "star" "star") with true.
  cbv iota.
  destruct (height w + 1 =? 0) eqn:Heq; [apply Z.eqb_eq in Heq; lia |].
  cbn [negb andb].
  change (strict_eq (VStr address) (VStr address')) with (String.eqb address address').
  destruct (String.eqb address address' && truthy star); reflexivity.
Qed.

(** X6.  After an accepted submission on a reachable ledger, the stars
    listed for any address are those listed before, followed by the new star
    when the address is the submitter's and the star is truthy. *)
Theorem submitted_star_is_listed address message signature star address' w :
  reachable SHA256 JSON_stringify verify w ->
  ge (sub (currentTime w) (messageTime message)) fiveMinutes = false ->
  verify message address signature = Normal true ->
  let w' := run 3 (snd (submitStar verify address message signature star w)) in
  exists stars,
    getStarsByWalletAddress w address' = Fulfilled (RValue (VArr stars)) /\
    getStarsByWalletAddress w' address'
    = Fulfilled (RValue (VArr
        (stars ++ if String.eqb address address' && truthy star then [star] else []))).
Proof.
  intros Hr Hfresh Hverify. cbv zeta.
  destruct (reachable_ledger_ok _ _ _ w Hr) as (Hidle & Hne & Hh & _).
  assert (Hpos : height w + 1 <> 0) by (destruct (chain w); [done | cbn in Hh; lia]).
  destruct (submitStar_runs SHA256 JSON_stringify verify
              address message signature star w Hidle Hfresh Hverify) as [_ ->].
  exists (collected_stars address' (chain w)).
  unfold getStarsByWalletAddress. rewrite !collect_star_fold. cbn [chain app].
  split; [done |].
  rewrite collected_stars_app, collected_stars_appended by done. done.
Qed.

(** X5.  After an accepted submission on a reachable ledger the chain is
    the old chain plus one block; [getChainHeight] answers the old height
    plus one, [getBlockByHeight] at that height answers the new block, whose
    payload decodes to the submitted address, message, signature and star,
    and every other height is answered as before. *)
Theorem accepted_block_is_retrievable address message signature star w :
  reachable SHA256 JSON_stringify verify w ->
  ge (sub (currentTime w) (messageTime message)) fiveMinutes = false ->
  verify message address signature = Normal true ->
  let w' := run 3 (snd (submitStar verify address message signature star w)) in
  let block := appended SHA256 JSON_stringify
                 (Block.new (star_data address message signature star)) w in
  chain w' = chain w ++ [block] /\
  getChainHeight w' = Fulfilled (RValue (VNum (Num (height w + 1)))) /\
  getBlockByHeight w' (height w + 1) = Fulfilled (RBlock block) /\
  Block.getBData block = star_data address message signature star /\
  (forall h, h <> height w + 1 -> getBlockByHeight w' h = getBlockByHeight w h).
Proof.
  intros Hr Hfresh Hverify. cbv zeta.
  destruct (reachable_ledger_ok _ _ _ w Hr) as (Hidle & _ & Hh & Hok & _).
  destruct (submitStar_runs SHA256 JSON_stringify verify
              address message signature star w Hidle Hfresh Hverify) as [_ ->].
  split; [done |]. split; [done |]. unfold getBlockByHeight. cbn [chain].
  rewrite !List.filter_app. cbn [List.filter appended Block.height].
  split; [| split; [done |]].
  - rewrite Z.eqb_refl, filter_none; [done |].
    intros b Hb. apply list_elem_of_lookup in Hb as [i Hi].
    destruct (Hok _ _ Hi) as [-> _]. apply lookup_lt_Some in Hi.
    apply Z.eqb_neq. lia.
  - intros h Hneq. rewrite List.filter_app. cbn [List.filter appended Block.height].
    destruct (height w + 1 =? h) eqn:Heq; [apply Z.eqb_eq in Heq; lia |].
    by rewrite app_nil_r.
Qed.

Lemma validation_keeps_ledger p e o n w :
  promises w !! p = Some (Settled o) ->
  Forall (validation_job p e) (queue w) ->
  same_ledger w (run n w).
Proof.
  revert w. induction n as [|n IH]; intros w Hp Hall; [apply same_ledger_refl |].
  cbn [run_microtasks]. destruct (queue w) as [|j rest] eqn:Hq;
    [apply same_ledger_refl |].
  inversion Hall as [| ? ? Hj Hrest]; subst.
  destruct (validation_job_runs SHA256 JSON_stringify p e o j rest w Hp Hj)
    as [Hs (more & Hq' & Hmore & _)].
  eapply same_ledger_trans; [apply Hs |]. apply IH.
  - destruct Hs as (_ & _ & _ & ->). done.
  - rewrite Hq'. by apply Forall_app.
Qed.

(** X8.  On an idle engine [validateChain] only reads: however many of its
    microtasks have run, chain and height are as before, and after two
    microtasks per block the engine is idle again. *)
Theorem validateChain_only_reads w n :
  idle w ->
  let w' := run n (snd (validateChain SHA256 JSON_stringify w)) in
  chain w' = chain w /\ height w' = height w /\
  ((2 * length (chain w) <= n)%nat -> idle w').
Proof.
  intros Hidle. cbv zeta. rewrite validateChain_returns. cbn [snd]. rewrite Hidle.
  cbn [app].
  match goal with |- context [run n ?W] => set (w1 := W) end.
  assert (Hp : promises w1 !! length (promises w) = Some (Settled chain_is_valid))
    by (by apply lookup_snoc).
  assert (Hall : Forall (validation_job (length (promises w)) (length (arrays w)))
                   (queue w1)).
  { apply Forall_forall. intros j Hj.
    apply list_elem_of_fmap in Hj as (b & -> & _). by cbn. }
  destruct (validation_keeps_ledger _ _ _ n w1 Hp Hall) as (Hc & Hh & _).
  split; [exact Hc |]. split; [exact Hh |].
  intros Hn.
  apply (validation_drains SHA256 JSON_stringify _ _ _ n w1 Hp Hall).
  subst w1. cbn [queue]. by rewrite total_weight_validations.
Qed.

Lemma getBlockByHeight_predecessor w b :
  getBlockByHeight w (Block.height b - 1) = Fulfilled (predecessor (chain w) b).
Proof. unfold getBlockByHeight, predecessor. by destruct (List.filter _ _). Qed.

(** First round: every block's task passes the self-check and queues its
    linkage comparison. *)
Lemma validation_first_round p e blocks :
  forall waiting w,
    Forall (fun b => Block_validate SHA256 JSON_stringify b = true) blocks ->
    queue w = map (fun b => ValidateChain_1 p e b
                              (Block_validate SHA256 JSON_stringify b)) blocks
              ++ waiting ->
    run (length blocks) w
    = with_queue
        (waiting ++ map (fun b => ValidateChain_2 p e b (predecessor (chain w) b)) blocks)
        w.
Proof.
  induction blocks as [|b blocks IH]; intros waiting w Hvalid Hq.
  - cbn [map app] in Hq. cbn [length run_microtasks map]. rewrite app_nil_r, <- Hq.
    by destruct w.
  - inversion Hvalid as [| ? ? Hb Hrest]; subst.
    cbn [length]. cbn [map app] in Hq. rewrite (run_step _ _ _ _ Hq).
    cbn [run_job]. unfold validateChain_1. rewrite Hb.
    rewrite getBlockByHeight_predecessor.
    unfold enqueue, with_queue. cbn [chain height now promises arrays queue events].
    rewrite (IH (waiting ++ [ValidateChain_2 p e b (predecessor (chain w) b)]));
      [| done | cbn [queue]; by rewrite <- app_assoc].
    unfold with_queue. cbn [chain height now promises arrays queue events map].
    by rewrite <- app_assoc.
Qed.

(** Second round: the linkage comparisons. *)
Lemma validation_second_round p e o (items : list (Block.t * result)) :
  forall w log,
    promises w !! p = Some (Settled o) ->
    arrays w !! e = Some log ->
    queue w = map (fun i => ValidateChain_2 p e i.1 i.2) items ->
    run (length items) w
    = with_events (events w ++ flat_map (fun i => linkage_error i.2) items)
        (with_arrays (<[e := log ++ flat_map (fun i => linkage_finding i.1 i.2) items]>
                        (arrays w))
           (with_queue [] w)).
Proof.
  induction items as [|[b r] items IH]; intros w log Hp He Hq.
  - cbn [map] in Hq. cbn [length run_microtasks flat_map]. rewrite !app_nil_r.
    rewrite list_insert_id by done. rewrite <- Hq. by destruct w.
  - cbn [length]. cbn [map] in Hq. rewrite (run_step _ _ _ _ Hq).
    cbn [run_job fst snd]. unfold validateChain_2.
    cbn [flat_map fst snd]. unfold linkage_finding at 1, linkage_error at 1.
    destruct (read_hash r) as [ph | error].
    + destruct (strict_eq ph _).
      * rewrite (IH _ log); [| done | done | done].
        unfold with_events, with_arrays, with_queue.
        cbn [chain height now promises arrays queue events app]. reflexivity.
      * unfold push. cbn [arrays with_queue]. rewrite He.
        rewrite (IH _ (log ++ [error_entry
                   "Previous block hash validation failed at height " (Block.height b)]));
          [| done | | done].
        -- unfold with_events, with_arrays, with_queue.
           cbn [chain height now promises arrays queue events app].
           by rewrite list_insert_insert_eq, <- app_assoc.
        -- cbn [arrays with_arrays]. apply list_lookup_insert_eq.
           by eapply lookup_lt_Some.
    + unfold settle. cbn [promises emit with_events with_queue]. rewrite Hp.
      rewrite (IH _ log); [| done | done | done].
      unfold emit, with_events, with_arrays, with_queue.
      cbn [chain height now promises arrays queue events app].
      by rewrite <- app_assoc.
Qed.

Lemma flat_map_heights {A} (f : Block.t -> list A) (g : Z -> list A) blocks :
  (forall b, b ∈ blocks -> f b = g (Block.height b)) ->
  flat_map f blocks = flat_map g (map Block.height blocks).
Proof.
  induction blocks as [|b blocks IH]; intros Hfg; [done |].
  cbn [flat_map map]. rewrite (Hfg b) by left. rewrite IH; [done |].
  intros b' Hb'. apply Hfg. by right.
Qed.

Lemma flat_map_positive {A} (F : Z -> A) start len :
  (0 < start)%nat ->
  flat_map (fun h => if h =? 0 then [] else [F h]) (map Z.of_nat (seq start len))
  = map (fun n => F (Z.of_nat n)) (seq start len).
Proof.
  revert start. induction len as [|len IH]; intros start Hstart; [done |].
  cbn [seq map flat_map]. rewrite IH by lia.
  destruct (Z.of_nat start =? 0) eqn:Heq; [apply Z.eqb_eq in Heq; lia | done].
Qed.

Lemma reachable_predecessor w i b :
  reachable SHA256 JSON_stringify verify w ->
  chain w !! i = Some b ->
  match i with
  | O => predecessor (chain w) b = RValue VNull
  | S j => exists previous digest,
      chain w !! j = Some previous /\ Block.hash previous = VStr digest /\
      predecessor (chain w) b = RBlock previous
  end /\
  Block.height b = Z.of_nat i /\ Block.previousBlockHash b = VUndefined.
Proof.
  intros Hr Hi.
  destruct (reachable_ledger_ok _ _ _ w Hr) as (_ & _ & _ & Hok & _).
  destruct (Hok _ _ Hi) as (Hh & Hlink & _).
  split; [| done]. unfold predecessor. rewrite Hh.
  destruct i as [|j].
  - rewrite filter_none; [done |]. intros b' Hb'.
    apply list_elem_of_lookup in Hb' as [i' Hi'].
    destruct (Hok _ _ Hi') as [-> _]. apply Z.eqb_neq. lia.
  - destruct (lookup_lt_is_Some_2 (chain w) j) as [previous Hj];
      [apply lookup_lt_Some in Hi; lia |].
    destruct (Hok _ _ Hj) as (Hhj & _ & Hhash & _).
    exists previous. eexists. split; [done |]. split; [exact Hhash |].
    destruct (filter_the_only (fun p => Block.height p =? Z.of_nat (S j) - 1)
                (chain w) previous) as [rest ->]; [| | | done].
    + apply list_elem_of_lookup. eauto.
    + apply Z.eqb_eq. lia.
    + intros b' Hb' Heq. apply Z.eqb_eq in Heq.
      apply list_elem_of_lookup in Hb' as [i' Hi'].
      destruct (Hok _ _ Hi') as [Hh' _].
      assert (i' = j) as -> by lia. congruence.
Qed.

(** X9.  What the deferred checks of [validateChain] record on a reachable
    ledger, once they have all run: one linkage entry for each height from 1
    to the top, in order, and nothing else; exactly one error was caught,
    the [TypeError] of the genesis lookup; the promise still holds
    ["Chain is valid"]. *)
Theorem validateChain_deferred_findings w :
  reachable SHA256 JSON_stringify verify w ->
  let p := fst (validateChain SHA256 JSON_stringify w) in
  let done := run (2 * length (chain w)) (snd (validateChain SHA256 JSON_stringify w)) in
  idle done /\
  arrays done !! length (arrays w)
  = Some (map (fun h => error_entry "Previous block hash validation failed at height "
                          (Z.of_nat h))
              (seq 1 (length (chain w) - 1))) /\
  events done = events w ++ [EvCaught TypeError] /\
  state done p = Some (Settled chain_is_valid).
Proof.
  intros Hr. cbv zeta.
  destruct (reachable_ledger_ok _ _ _ w Hr) as (Hidle & Hne & _ & Hok & _).
  rewrite validateChain_returns. cbn [fst snd]. rewrite Hidle. cbn [app].
  match goal with |- context [run _ ?W] => set (w0 := W) end.
  assert (Hrun : run (2 * length (chain w)) w0 =
    {| chain := chain w; height := height w; now := now w;
       promises := promises w ++ [Settled chain_is_valid];
       arrays := arrays w ++
         [flat_map (fun b => linkage_finding b (predecessor (chain w) b)) (chain w)];
       queue := [];
       events := events w ++
         flat_map (fun b => linkage_error (predecessor (chain w) b)) (chain w) |}).
  { replace (2 * length (chain w))%nat
      with (length (chain w) + length (chain w))%nat by lia.
    rewrite run_plus.
    rewrite (validation_first_round (length (promises w)) (length (arrays w))
               (chain w) [] w0);
      [| | subst w0; cbn [queue]; by rewrite app_nil_r].
    2: { apply Forall_forall. intros b Hb.
         apply list_elem_of_lookup in Hb as [i Hi].
         destruct (Hok _ _ Hi) as (_ & _ & Hhash & _).
         unfold Block_validate. rewrite Hhash. cbn [strict_eq]. apply String.eqb_refl. }
    subst w0. unfold with_queue.
    cbn [chain height now promises arrays queue events app].
    set (items := map (fun b => (b, predecessor (chain w) b)) (chain w)).
    replace (length (chain w)) with (length items) by (subst items; apply length_map).
    rewrite (validation_second_round (length (promises w)) (length (arrays w))
               chain_is_valid items _ []).
    2: { cbn [promises]. by apply lookup_snoc. }
    2: { cbn [arrays]. by apply lookup_snoc. }
    2: { cbn [queue]. subst items. by rewrite map_map. }
    unfold with_events, with_arrays, with_queue.
    cbn [chain height now promises arrays queue events app].
    rewrite insert_snoc by done.
    subst items. rewrite !flat_map_concat_map, !map_map. cbn [fst snd].
    by rewrite <- !flat_map_concat_map. }
  rewrite Hrun. clear Hrun w0. unfold idle, state.
  cbn [chain height now promises arrays queue events].
  assert (Hn : exists n, length (chain w) = S n)
    by (destruct (chain w); [done | eauto]).
  destruct Hn as [n Hn].
  assert (Hheights : map Block.height (chain w) = map Z.of_nat (seq 0 (S n))).
  { rewrite <- Hn. by eapply reachable_heights. }
  split; [done |]. split; [| split; [| by apply lookup_snoc]].
  - rewrite lookup_snoc by done. f_equal.
    rewrite (flat_map_heights _
      (fun h => if h =? 0 then []
                else [error_entry "Previous block hash validation failed at height " h])).
    + rewrite Hheights, Hn. replace (S n - 1)%nat with n by lia.
      cbn [seq map flat_map]. change (Z.of_nat 0 =? 0) with true. cbv iota.
      cbn [app]. by rewrite flat_map_positive by lia.
    + intros b Hb. apply list_elem_of_lookup in Hb as [i Hi].
      destruct (reachable_predecessor w i b Hr Hi) as (Hpred & Hh & Hlink).
      unfold linkage_finding. rewrite Hh, Hlink. destruct i as [|j].
      * rewrite Hpred. reflexivity.
      * destruct Hpred as (previous & digest & _ & Hhash & ->).
        cbn [read_hash]. rewrite Hhash. cbn [strict_eq].
        destruct (Z.of_nat (S j) =? 0) eqn:Heq; [apply Z.eqb_eq in Heq; lia | done].
  - f_equal.
    rewrite (flat_map_heights _
      (fun h => if h =? 0 then [EvCaught TypeError] else [])).
    + rewrite Hheights. cbn [seq map flat_map]. change (Z.of_nat 0 =? 0) with true.
      cbv iota.
      assert (Hnone : forall start len, (0 < start)%nat ->
                flat_map (fun h => if h =? 0 then [EvCaught TypeError] else [])
                  (map Z.of_nat (seq start len)) = []).
      { intros start len. revert start. induction len as [|len IH]; intros start Hs; [done |].
        cbn [seq map flat_map]. rewrite IH by lia.
        destruct (Z.of_nat start =? 0) eqn:Heq; [apply Z.eqb_eq in Heq; lia | done]. }
      by rewrite Hnone by lia.
    + intros b Hb. apply list_elem_of_lookup in Hb as [i Hi].
      destruct (reachable_predecessor w i b Hr Hi) as (Hpred & Hh & Hlink).
      unfold linkage_error. rewrite Hh. destruct i as [|j].
      * rewrite Hpred. reflexivity.
      * destruct Hpred as (previous & digest & _ & Hhash & ->).
        cbn [read_hash].
        destruct (Z.of_nat (S j) =? 0) eqn:Heq; [apply Z.eqb_eq in Heq; lia | done].
Qed.

(** X3.  A challenge issued for a colon-free address and submitted later,
    both with the clock at 1000 ms or more, is turned down as expired
    exactly when the whole seconds of the two clock readings differ by 300
    or more; otherwise the verifier is consulted. *)
Theorem challenge_expires_after_300_seconds address signature star issued w :
  has_char ":" address = false -> 1000 <= now issued -> 1000 <= now w ->
  let message := challenge address issued in
  let p := fst (submitStar verify address message signature star w) in
  let w1 := snd (submitStar verify address message signature star w) in
  (300 <= now w / 1000 - now issued / 1000 ->
   state w1 p = Some (Settled (Rejected (RValue expired_message))) /\
   events w1 = events w /\ queue w1 = queue w) /\
  (now w / 1000 - now issued / 1000 < 300 ->
   events w1 = events w ++ [EvVerify message address signature]).
Proof.
  intros Haddr Hissued Hw. cbv zeta.
  assert (Helapsed :
    ge (sub (currentTime w) (messageTime (challenge address issued))) fiveMinutes
    = (300 <=? now w / 1000 - now issued / 1000)).
  { rewrite challenge_messageTime by (done || lia).
    by rewrite !currentTime_seconds by done. }
  split.
  - intros Hstale.
    assert (Hge : ge (sub (currentTime w) (messageTime (challenge address issued)))
                     fiveMinutes = true)
      by (rewrite Helapsed; apply Z.leb_le; lia).
    rewrite (submitStar_expired verify _ _ _ _ _ Hge). cbn [fst snd].
    unfold state. cbn [promises events queue with_promises].
    split; [by apply lookup_snoc | done].
  - intros Hfresh. apply submitStar_consults_verifier.
    rewrite Helapsed. apply Z.leb_gt. lia.
Qed.

(** X13.  From construction to query: on a fresh ledger, a challenge issued
    for a colon-free address, signed and submitted less than 300 whole
    seconds later with a truthy star, brings the height to 1 and makes
    [getStarsByWalletAddress] answer exactly that star for the address. *)
Theorem registered_star_end_to_end ms0 ms1 ms2 address signature star :
  has_char ":" address = false ->
  1000 <= ms1 -> 1000 <= ms2 -> ms2 / 1000 - ms1 / 1000 < 300 ->
  let w0 := run 3 (Blockchain_new ms0) in
  let message := challenge address (with_now ms1 w0) in
  verify message address signature = Normal true ->
  truthy star = true ->
  let w2 := run 3 (snd (submitStar verify address message signature star
                          (with_now ms2 w0))) in
  idle w2 /\
  getChainHeight w2 = Fulfilled (RValue (VNum (Num 1))) /\
  getStarsByWalletAddress w2 address = Fulfilled (RValue (VArr [star])).
Proof.
  intros Haddr Hms1 Hms2 Helapsed. cbv zeta. intros Hverify Htruthy.
  assert (Hfresh :
    ge (sub (currentTime (with_now ms2 (run 3 (Blockchain_new ms0))))
            (messageTime (challenge address (with_now ms1 (run 3 (Blockchain_new ms0))))))
       fiveMinutes = false).
  { rewrite challenge_messageTime by (done || (cbn [now with_now]; lia)).
    rewrite !currentTime_seconds by (by cbn [now with_now]).
    cbn [now with_now ge sub fiveMinutes]. apply Z.leb_gt. lia. }
  assert (Hidle : idle (with_now ms2 (run 3 (Blockchain_new ms0))))
    by (by rewrite Blockchain_new_runs).
  destruct (submitStar_runs SHA256 JSON_stringify verify address _ signature star
              _ Hidle Hfresh Hverify) as [_ ->].
  split; [done |]. split.
  - unfold getChainHeight. cbn [height]. by rewrite Blockchain_new_runs.
  - unfold getStarsByWalletAddress. rewrite collect_star_fold. cbn [chain app].
    rewrite collected_stars_app, collected_stars_appended.
    + rewrite String.eqb_refl, Htruthy. cbn [andb].
      rewrite Blockchain_new_runs. reflexivity.
    + rewrite Blockchain_new_runs. cbn [height with_now]. lia.
Qed.

End Further.

(** ** The further properties at work *)

Lemma demo_later_reachable :
  reachable toy_SHA256 toy_stringify accept_all (with_now 1700000299999 demo_genesis).
Proof. apply reachable_clock. exact demo_genesis_reachable. Qed.

Lemma demo_challenge : challenge "1A1zP1" demo_genesis = demo_message.
Proof. vm_compute. reflexivity. Qed.

(** X1, at work: the clock of the sample ledger, and a clock at 999 ms. *)
Lemma clock_witness :
  1000 <= now demo_genesis /\
  seconds_string demo_genesis = "1700000000" /\
  currentTime demo_genesis = Num 1700000000 /\
  0 <= now (with_now 999 demo_genesis) < 1000 /\
  seconds_string (with_now 999 demo_genesis) = "" /\
  currentTime (with_now 999 demo_genesis) = NaN.
Proof.
  assert (Hlate : 1000 <= now demo_genesis) by (vm_compute; discriminate).
  assert (Hearly : 0 <= now (with_now 999 demo_genesis) < 1000)
    by (vm_compute; split; [discriminate | reflexivity]).
  destruct (clock_is_read_in_whole_seconds demo_genesis) as [Hseconds _].
  destruct (clock_is_read_in_whole_seconds (with_now 999 demo_genesis)) as [_ Hnone].
  destruct (Hseconds Hlate) as [Hs Hc]. destruct (Hnone Hearly) as [Hs' Hc'].
  split; [exact Hlate |].
  split; [rewrite Hs; vm_compute; reflexivity |].
  split; [rewrite Hc; vm_compute; reflexivity |].
  split; [exact Hearly |]. split; [exact Hs' | exact Hc'].
Defined.

(** X2, at work: the challenge for the sample address. *)
Lemma challenge_round_trip_witness :
  has_char ":" "1A1zP1" = false /\
  0 <= now demo_genesis /\
  requestMessageOwnershipVerification demo_genesis "1A1zP1"
    = Fulfilled (RValue (VStr demo_message)) /\
  split ":" demo_message = ["1A1zP1"; seconds_string demo_genesis; "starRegistry"] /\
  messageTime demo_message = currentTime demo_genesis.
Proof.
  assert (Haddr : has_char ":" "1A1zP1" = false) by (vm_compute; reflexivity).
  assert (Hms : 0 <= now demo_genesis) by (vm_compute; discriminate).
  destruct (challenge_round_trip "1A1zP1" demo_genesis Haddr Hms)
    as (Hrequest & Hsplit & Htime).
  rewrite demo_challenge in Hrequest, Hsplit, Htime.
  split; [exact Haddr |]. split; [exact Hms |].
  split; [exact Hrequest |]. split; [exact Hsplit | exact Htime].
Defined.

(** X3, at work: the sample challenge submitted 300 s and 299 s later. *)
Lemma challenge_expiry_witness :
  has_char ":" "1A1zP1" = false /\
  1000 <= now demo_genesis /\
  1000 <= now (with_now 1700000300000 demo_genesis) /\
  300 <= now (with_now 1700000300000 demo_genesis) / 1000 - now demo_genesis / 1000 /\
  state (snd (submitStar accept_all "1A1zP1" (challenge "1A1zP1" demo_genesis) "sig"
                demo_star (with_now 1700000300000 demo_genesis)))
        (fst (submitStar accept_all "1A1zP1" (challenge "1A1zP1" demo_genesis) "sig"
                demo_star (with_now 1700000300000 demo_genesis)))
    = Some (Settled (Rejected (RValue expired_message))) /\
  1000 <= now (with_now 1700000299999 demo_genesis) /\
  now (with_now 1700000299999 demo_genesis) / 1000 - now demo_genesis / 1000 < 300 /\
  events (snd (submitStar accept_all "1A1zP1" (challenge "1A1zP1" demo_genesis) "sig"
                 demo_star (with_now 1700000299999 demo_genesis)))
    = events (with_now 1700000299999 demo_genesis)
      ++ [EvVerify (challenge "1A1zP1" demo_genesis) "1A1zP1" "sig"].
Proof.
  assert (Haddr : has_char ":" "1A1zP1" = false) by (vm_compute; reflexivity).
  assert (Hissued : 1000 <= now demo_genesis) by (vm_compute; discriminate).
  assert (Hlate : 1000 <= now (with_now 1700000300000 demo_genesis))
    by (vm_compute; discriminate).
  assert (Hsoon : 1000 <= now (with_now 1700000299999 demo_genesis))
    by (vm_compute; discriminate).
  assert (Hstale : 300 <= now (with_now 1700000300000 demo_genesis) / 1000
                          - now demo_genesis / 1000) by (vm_compute; discriminate).
  assert (Hfresh : now (with_now 1700000299999 demo_genesis) / 1000
                   - now demo_genesis / 1000 < 300) by (vm_compute; reflexivity).
  destruct (challenge_expires_after_300_seconds accept_all "1A1zP1" "sig" demo_star
              demo_genesis (with_now 1700000300000 demo_genesis) Haddr Hissued Hlate)
    as [Hexpired _].
  destruct (challenge_expires_after_300_seconds accept_all "1A1zP1" "sig" demo_star
              demo_genesis (with_now 1700000299999 demo_genesis) Haddr Hissued Hsoon)
    as [_ Hverified].
  split; [exact Haddr |]. split; [exact Hissued |]. split; [exact Hlate |].
  split; [exact Hstale |]. split; [exact (proj1 (Hexpired Hstale)) |].
  split; [exact Hsoon |]. split; [exact Hfresh |]. exact (Hverified Hfresh).
Defined.

(** X4, at work: a stale submission, a refused one and one whose
    verification throws. *)
Lemma submitStar_refusal_witness :
  ge (sub (currentTime (with_now 1700000300000 demo_genesis)) (messageTime demo_message))
     fiveMinutes = true /\
  chain (snd (submitStar accept_all "1A1zP1" demo_message "sig" demo_star
                (with_now 1700000300000 demo_genesis)))
    = chain (with_now 1700000300000 demo_genesis) /\
  reject_all demo_message "1A1zP1" "sig" <> Normal true /\
  chain (snd (submitStar reject_all "1A1zP1" demo_message "sig" demo_star demo_genesis))
    = chain demo_genesis /\
  queue (snd (submitStar reject_all "1A1zP1" demo_message "sig" demo_star demo_genesis))
    = queue demo_genesis /\
  throw_all demo_message "1A1zP1" "sig" <> Normal true /\
  ge (sub (currentTime demo_genesis) (messageTime demo_message)) fiveMinutes = false /\
  throw_all demo_message "1A1zP1" "sig" = Throw verify_error /\
  state (snd (submitStar throw_all "1A1zP1" demo_message "sig" demo_star demo_genesis))
        (fst (submitStar throw_all "1A1zP1" demo_message "sig" demo_star demo_genesis))
    = Some (Settled (Rejected (RValue verify_error))).
Proof.
  assert (Hstale : ge (sub (currentTime (with_now 1700000300000 demo_genesis))
                           (messageTime demo_message)) fiveMinutes = true)
    by (vm_compute; reflexivity).
  assert (Hfresh : ge (sub (currentTime demo_genesis) (messageTime demo_message))
                      fiveMinutes = false) by (vm_compute; reflexivity).
  assert (Hreject : reject_all demo_message "1A1zP1" "sig" <> Normal true)
    by discriminate.
  assert (Hthrow : throw_all demo_message "1A1zP1" "sig" <> Normal true)
    by discriminate.
  destruct (submitStar_refusal_leaves_ledger accept_all "1A1zP1" demo_message "sig"
              demo_star (with_now 1700000300000 demo_genesis) (or_introl Hstale))
    as (Hchain1 & _).
  destruct (submitStar_refusal_leaves_ledger reject_all "1A1zP1" demo_message "sig"
              demo_star demo_genesis (or_intror Hreject))
    as (Hchain2 & _ & Hqueue2 & _).
  destruct (submitStar_refusal_leaves_ledger throw_all "1A1zP1" demo_message "sig"
              demo_star demo_genesis (or_intror Hthrow))
    as (_ & _ & _ & _ & Hthrown).
  split; [exact Hstale |]. split; [exact Hchain1 |]. split; [exact Hreject |].
  split; [exact Hchain2 |]. split; [exact Hqueue2 |]. split; [exact Hthrow |].
  split; [exact Hfresh |]. split; [reflexivity |].
  exact (Hthrown verify_error Hfresh eq_refl).
Defined.

Lemma demo_later_fresh :
  ge (sub (currentTime (with_now 1700000299999 demo_genesis)) (messageTime demo_message))
     fiveMinutes = false.
Proof. vm_compute. reflexivity. Qed.

(** X5, at work: the star block accepted on the fresh sample ledger. *)
Lemma accepted_block_witness :
  reachable toy_SHA256 toy_stringify accept_all (with_now 1700000299999 demo_genesis) /\
  ge (sub (currentTime (with_now 1700000299999 demo_genesis)) (messageTime demo_message))
     fiveMinutes = false /\
  accept_all demo_message "1A1zP1" "sig" = Normal true /\
  chain (run_microtasks toy_SHA256 toy_stringify 3
           (snd (submitStar accept_all "1A1zP1" demo_message "sig" demo_star
                   (with_now 1700000299999 demo_genesis))))
    = [demo_block0; demo_block1] /\
  getChainHeight (run_microtasks toy_SHA256 toy_stringify 3
                    (snd (submitStar accept_all "1A1zP1" demo_message "sig" demo_star
                            (with_now 1700000299999 demo_genesis))))
    = Fulfilled (RValue (VNum (Num 1))) /\
  0 <> height (with_now 1700000299999 demo_genesis) + 1 /\
  getBlockByHeight (run_microtasks toy_SHA256 toy_stringify 3
                      (snd (submitStar accept_all "1A1zP1" demo_message "sig" demo_star
                              (with_now 1700000299999 demo_genesis)))) 0
    = getBlockByHeight (with_now 1700000299999 demo_genesis) 0.
Proof.
  destruct (accepted_block_is_retrievable toy_SHA256 toy_stringify accept_all
              "1A1zP1" demo_message "sig" demo_star
              (with_now 1700000299999 demo_genesis)
              demo_later_reachable demo_later_fresh eq_refl)
    as (Hchain & Hheight & _ & _ & Hother).
  split; [exact demo_later_reachable |]. split; [exact demo_later_fresh |].
  split; [reflexivity |].
  split; [rewrite Hchain; vm_compute; reflexivity |].
  split; [rewrite Hheight; vm_compute; reflexivity |].
  split; [vm_compute; discriminate |].
  apply Hother. vm_compute. discriminate.
Defined.

(** X6, at work: the accepted star is listed for its owner and for nobody
    else. *)
Lemma submitted_star_witness :
  reachable toy_SHA256 toy_stringify accept_all (with_now 1700000299999 demo_genesis) /\
  ge (sub (currentTime (with_now 1700000299999 demo_genesis)) (messageTime demo_message))
     fiveMinutes = false /\
  accept_all demo_message "1A1zP1" "sig" = Normal true /\
  getStarsByWalletAddress
    (run_microtasks toy_SHA256 toy_stringify 3
       (snd (submitStar accept_all "1A1zP1" demo_message "sig" demo_star
               (with_now 1700000299999 demo_genesis)))) "1A1zP1"
    = Fulfilled (RValue (VArr [demo_star])) /\
  getStarsByWalletAddress
    (run_microtasks toy_SHA256 toy_stringify 3
       (snd (submitStar accept_all "1A1zP1" demo_message "sig" demo_star
               (with_now 1700000299999 demo_genesis)))) "1BvBMS"
    = Fulfilled (RValue (VArr [])).
Proof.
  destruct (submitted_star_is_listed toy_SHA256 toy_stringify accept_all
              "1A1zP1" demo_message "sig" demo_star "1A1zP1"
              (with_now 1700000299999 demo_genesis)
              demo_later_reachable demo_later_fresh eq_refl)
    as (mine & Hbefore & Hafter).
  destruct (submitted_star_is_listed toy_SHA256 toy_stringify accept_all
              "1A1zP1" demo_message "sig" demo_star "1BvBMS"
              (with_now 1700000299999 demo_genesis)
              demo_later_reachable demo_later_fresh eq_refl)
    as (others & Hbefore' & Hafter').
  assert (Hmine : mine = []).
  { assert (Hnone : getStarsByWalletAddress (with_now 1700000299999 demo_genesis) "1A1zP1"
                    = Fulfilled (RValue (VArr []))) by (vm_compute; reflexivity).
    rewrite Hnone in Hbefore. by injection Hbefore. }
  assert (Hothers : others = []).
  { assert (Hnone : getStarsByWalletAddress (with_now 1700000299999 demo_genesis) "1BvBMS"
                    = Fulfilled (RValue (VArr []))) by (vm_compute; reflexivity).
    rewrite Hnone in Hbefore'. by injection Hbefore'. }
  subst mine others.
  split; [exact demo_later_reachable |]. split; [exact demo_later_fresh |].
  split; [reflexivity |].
  split; [rewrite Hafter | rewrite Hafter']; vm_compute; reflexivity.
Defined.

(** X7, at work: two submissions on the fresh sample ledger, not awaited. *)
Lemma unawaited_submissions_witness :
  idle (with_now 1700000299999 demo_genesis) /\
  ge (sub (currentTime (with_now 1700000299999 demo_genesis)) (messageTime demo_message))
     fiveMinutes = false /\
  accept_all demo_message "1A1zP1" "sig" = Normal true /\
  map Block.height
    (chain (run_microtasks toy_SHA256 toy_stringify 6
              (snd (submitStar accept_all "1A1zP1" demo_message "sig" (VStr "")
                      (snd (submitStar accept_all "1A1zP1" demo_message "sig" demo_star
                              (with_now 1700000299999 demo_genesis)))))))
    = [0; 1; 1] /\
  height (run_microtasks toy_SHA256 toy_stringify 6
            (snd (submitStar accept_all "1A1zP1" demo_message "sig" (VStr "")
                    (snd (submitStar accept_all "1A1zP1" demo_message "sig" demo_star
                            (with_now 1700000299999 demo_genesis))))))
    = height (with_now 1700000299999 demo_genesis) + 2.
Proof.
  assert (Hidle : idle (with_now 1700000299999 demo_genesis))
    by (vm_compute; reflexivity).
  destruct (unawaited_submissions_collide toy_SHA256 toy_stringify accept_all
              "1A1zP1" demo_message "sig" demo_star "1A1zP1" demo_message "sig" (VStr "")
              (with_now 1700000299999 demo_genesis)
              Hidle demo_later_fresh demo_later_fresh eq_refl eq_refl)
    as (_ & Hchain & Hheight & _).
  split; [exact Hidle |]. split; [exact demo_later_fresh |]. split; [reflexivity |].
  split; [rewrite Hchain; vm_compute; reflexivity | exact Hheight].
Defined.

(** X8, at work: validation of the sample ledger. *)
Lemma validateChain_only_reads_witness :
  idle demo_one_star /\
  (2 * length (chain demo_one_star) <= 4)%nat /\
  chain (run_microtasks toy_SHA256 toy_stringify 4
           (snd (validateChain toy_SHA256 toy_stringify demo_one_star)))
    = chain demo_one_star /\
  height (run_microtasks toy_SHA256 toy_stringify 4
            (snd (validateChain toy_SHA256 toy_stringify demo_one_star)))
    = height demo_one_star /\
  idle (run_microtasks toy_SHA256 toy_stringify 4
          (snd (validateChain toy_SHA256 toy_stringify demo_one_star))).
Proof.
  assert (Hfuel : (2 * length (chain demo_one_star) <= 4)%nat)
    by (rewrite demo_one_star_chain; cbn; lia).
  destruct (validateChain_only_reads toy_SHA256 toy_stringify demo_one_star 4
              demo_one_star_idle) as (Hchain & Hheight & Hidle).
  split; [exact demo_one_star_idle |]. split; [exact Hfuel |].
  split; [exact Hchain |]. split; [exact Hheight | exact (Hidle Hfuel)].
Defined.

(** X9, at work: what the checks record on the sample ledger. *)
Lemma validateChain_findings_witness :
  reachable toy_SHA256 toy_stringify accept_all demo_one_star /\
  arrays (run_microtasks toy_SHA256 toy_stringify (2 * length (chain demo_one_star))
            (snd (validateChain toy_SHA256 toy_stringify demo_one_star)))
    !! length (arrays demo_one_star)
    = Some [error_entry "Previous block hash validation failed at height " 1] /\
  events (run_microtasks toy_SHA256 toy_stringify (2 * length (chain demo_one_star))
            (snd (validateChain toy_SHA256 toy_stringify demo_one_star)))
    = events demo_one_star ++ [EvCaught TypeError].
Proof.
  destruct (validateChain_deferred_findings toy_SHA256 toy_stringify accept_all
              demo_one_star demo_one_star_reachable) as (_ & Hlog & Hevents & _).
  split; [exact demo_one_star_reachable |].
  split; [rewrite Hlog, demo_one_star_chain; reflexivity | exact Hevents].
Defined.

(** X10, at work: the star block of the sample ledger. *)
Lemma stored_blocks_witness :
  reachable toy_SHA256 toy_stringify accept_all demo_one_star /\
  demo_block1 ∈ chain demo_one_star /\
  Block.hash demo_block1
    = VStr (toy_SHA256 (toy_stringify (Block.contents demo_block1))) /\
  Block_validate toy_SHA256 toy_stringify demo_block1 = true.
Proof.
  assert (Hin : demo_block1 ∈ chain demo_one_star).
  { rewrite demo_one_star_chain. apply elem_of_cons. right. apply elem_of_cons. by left. }
  split; [exact demo_one_star_reachable |]. split; [exact Hin |].
  exact (stored_blocks_pass_their_own_check toy_SHA256 toy_stringify accept_all
           demo_one_star demo_block1 demo_one_star_reachable Hin).
Defined.

(** X11, at work: the sample ledger. *)
Lemma genesis_witness :
  reachable toy_SHA256 toy_stringify accept_all demo_one_star /\
  initializeChain demo_one_star = demo_one_star /\
  chain demo_one_star !! 0%nat = Some demo_block0 /\
  Block.getBData demo_block0 = genesis_data.
Proof.
  destruct (genesis_is_never_recreated toy_SHA256 toy_stringify accept_all
              demo_one_star demo_one_star_reachable) as (Hnoop & _ & _).
  split; [exact demo_one_star_reachable |]. split; [exact Hnoop |].
  split; [rewrite demo_one_star_chain; reflexivity | reflexivity].
Defined.

(** X12, at work: a hash that is carried and the block it leads to. *)
Lemma getBlockByHash_carrier_witness :
  getBlockByHash demo_one_star "1" = Fulfilled (RBlock demo_block1) /\
  demo_block1 ∈ chain demo_one_star /\
  Block.hash demo_block1 = VStr "1" /\
  (exists b, b ∈ chain demo_one_star /\ Block.hash b = VStr "1") /\
  (exists b, getBlockByHash demo_one_star "1" = Fulfilled (RBlock b)).
Proof.
  assert (Hfound : getBlockByHash demo_one_star "1" = Fulfilled (RBlock demo_block1))
    by (vm_compute; reflexivity).
  destruct (getBlockByHash_finds_a_carrier demo_one_star "1") as (Hsound & Hcomplete & _).
  destruct (Hsound demo_block1 Hfound) as [Hin Hhash].
  split; [exact Hfound |]. split; [exact Hin |]. split; [exact Hhash |].
  split; [exists demo_block1; by split |].
  apply Hcomplete. exists demo_block1. by split.
Defined.

(** X13, at work: the sample scenario from construction to query. *)
Lemma registered_star_witness :
  has_char ":" "1A1zP1" = false /\
  1000 <= 1700000000123 /\ 1000 <= 1700000299999 /\
  1700000299999 / 1000 - 1700000000123 / 1000 < 300 /\
  accept_all (challenge "1A1zP1" (with_now 1700000000123 demo_genesis)) "1A1zP1" "sig"
    = Normal true /\
  truthy demo_star = true /\
  getChainHeight
    (run_microtasks toy_SHA256 toy_stringify 3
       (snd (submitStar accept_all "1A1zP1"
               (challenge "1A1zP1"
                  (with_now 1700000000123
                     (run_microtasks toy_SHA256 toy_stringify 3
                        (Blockchain_new 1700000000123))))
               "sig" demo_star
               (with_now 1700000299999
                  (run_microtasks toy_SHA256 toy_stringify 3
                     (Blockchain_new 1700000000123))))))
    = Fulfilled (RValue (VNum (Num 1))) /\
  getStarsByWalletAddress
    (run_microtasks toy_SHA256 toy_stringify 3
       (snd (submitStar accept_all "1A1zP1"
               (challenge "1A1zP1"
                  (with_now 1700000000123
                     (run_microtasks toy_SHA256 toy_stringify 3
                        (Blockchain_new 1700000000123))))
               "sig" demo_star
               (with_now 1700000299999
                  (run_microtasks toy_SHA256 toy_stringify 3
                     (Blockchain_new 1700000000123))))))
    "1A1zP1"
    = Fulfilled (RValue (VArr [demo_star])).
Proof.
  assert (Haddr : has_char ":" "1A1zP1" = false) by (vm_compute; reflexivity).
  assert (Hms1 : 1000 <= 1700000000123) by lia.
  assert (Hms2 : 1000 <= 1700000299999) by lia.
  assert (Helapsed : 1700000299999 / 1000 - 1700000000123 / 1000 < 300)
    by (vm_compute; reflexivity).
  destruct (registered_star_end_to_end toy_SHA256 toy_stringify accept_all
              1700000000123 1700000000123 1700000299999 "1A1zP1" "sig" demo_star
              Haddr Hms1 Hms2 Helapsed eq_refl eq_refl)
    as (_ & Hheight & Hstars).
  split; [exact Haddr |]. split; [exact Hms1 |]. split; [exact Hms2 |].
  split; [exact Helapsed |]. split; [reflexivity |]. split; [reflexivity |].
  split; [exact Hheight | exact Hstars].
Defined.
